(** * Multinomial Naive Bayes text classifier ([naive_bayes.py])

    A shallow embedding of the four functions of [naive_bayes.py]
    ([parse_training_data], [calculate_probability], [predict],
    [naive_bayes_text]) and the properties of the specification that
    can be settled on them.

    Modelling choices:
    - Python [int] is [Z]; Python [str] is [string] (a byte string:
      [lower] folds the ASCII letters only);
    - a Python [dict] is an insertion-ordered association list with
      unique keys ([Dict]): assigning to a present key keeps its
      position, assigning to a new key appends it, and [items()]
      iterates in list order;
    - a raised exception is the [Raise] case of [result];
    - Python [float] is an abstract type with the operations the code
      uses ([PyFloat]): conversion from [int], [+], [*], [/], [math.log],
      [==] and [<]; the reals are the instance used wherever a claim
      depends on the value of a score (rounding, and the [OverflowError]
      of converting an [int] beyond the float range, are not modelled:
      statements over the reals are made where rounding cannot change
      the label or the exception, and none is made about the label when
      two scores tie in exact arithmetic);
    - [lower] is [str.lower()] on ASCII text; the statements that
      depend on what the folding does are made for ASCII documents;
    - the module's global names are a dictionary passed to
      [naive_bayes_text], the only function that reads one. *)

From Stdlib Require Import String Ascii List ZArith Lia Bool ListSet.
From Stdlib Require Import Reals Lra Permutation.
Import ListNotations.

Local Open Scope string_scope.
Local Open Scope Z_scope.
Local Open Scope list_scope.

(** ** Exceptions *)

Inductive exn : Type :=
| KeyError (key : string)
| NameError (name : string)
| AttributeError
| TypeError
| ZeroDivisionError
| ValueError.

Inductive result (A : Type) : Type :=
| Ok (a : A)
| Raise (e : exn).

Arguments Ok {A} a.
Arguments Raise {A} e.

Definition bind {A B : Type} (r : result A) (k : A -> result B) : result B :=
  match r with
  | Ok a => k a
  | Raise e => Raise e
  end.

Declare Scope py_scope.
Delimit Scope py_scope with py.
Notation "x <- c ;; k" := (bind c (fun x => k))
  (at level 100, c at next level, right associativity) : py_scope.
Local Open Scope py_scope.

(** A [for] loop whose body may raise: the state is threaded from one
    iteration to the next and the first exception ends the loop. *)
Fixpoint for_each {S A : Type} (body : S -> A -> result S) (l : list A) (s : S)
  : result S :=
  match l with
  | [] => Ok s
  | a :: l' => s' <- body s a ;; for_each body l' s'
  end.

(** ** Strings: [str.split(" ")] and [str.lower()] *)

(** [str.lower()] on ASCII text: the letters [A]-[Z] are folded, every
    other character is kept ([is_ascii] below says which strings these
    are). *)

Definition lower_ascii (c : ascii) : ascii :=
  let n := nat_of_ascii c in
  if (Nat.leb 65 n && Nat.leb n 90)%bool then ascii_of_nat (n + 32) else c.

Fixpoint lower (s : string) : string :=
  match s with
  | EmptyString => EmptyString
  | String c s' => String (lower_ascii c) (lower s')
  end.

(** [s.split(" ")]: cut at every single space; adjacent separators and
    the empty string give empty tokens, so the result is never empty. *)
Fixpoint split_space (s : string) : list string :=
  match s with
  | EmptyString => [EmptyString]
  | String c s' =>
      if Ascii.eqb c " "%char then EmptyString :: split_space s'
      else match split_space s' with
           | [] => [String c EmptyString]
           | w :: ws => String c w :: ws
           end
  end.

(** ** Dictionaries *)

Module Dict.
Section Dict.
Variable V : Type.

Definition t : Type := list (string * V).

Definition empty : t := [].

(** [d.get(k)] *)
Fixpoint get (k : string) (d : t) : option V :=
  match d with
  | [] => None
  | (k', v) :: d' => if String.eqb k k' then Some v else get k d'
  end.

(** [d[k] = v] *)
Fixpoint set (k : string) (v : V) (d : t) : t :=
  match d with
  | [] => [(k, v)]
  | (k', v') :: d' =>
      if String.eqb k k' then (k, v) :: d' else (k', v') :: set k v d'
  end.

Definition keys (d : t) : list string := map fst d.

(** [d[k]] *)
Definition getitem (k : string) (d : t) : result V :=
  match get k d with
  | Some v => Ok v
  | None => Raise (KeyError k)
  end.
End Dict.
Arguments empty {V}.
Arguments get {V} k d.
Arguments set {V} k v d.
Arguments keys {V} d.
Arguments getitem {V} k d.
End Dict.

(** ** The model *)

(** A value of the [word_counts] dictionary: the per-class dictionary
    of token counts, or the integer stored under ['total']. *)
Inductive wc_value : Type :=
| VDict (d : Dict.t Z)
| VInt (n : Z).

Definition corpus : Type := list (string * list string).

(** [(len(vocab_set), word_counts, class_counts)] *)
Definition model : Type := (Z * Dict.t wc_value * Dict.t Z)%type.

(** ** Training: [parse_training_data] *)

(** The local variables of [parse_training_data]. *)
Record locals : Type := mkLocals {
  vocab_set : set string;
  word_counts : Dict.t wc_value;
  class_counts : Dict.t Z;
  class_total : Z;
  word_total : Z
}.

(** [v.get(...)] on a value of [word_counts]: an [int] has no [get]. *)
Definition as_dict (v : wc_value) : result (Dict.t Z) :=
  match v with
  | VDict d => Ok d
  | VInt _ => Raise AttributeError
  end.

(** Truth value of [d.get(word)]: [None] and [0] are false. *)
Definition truthy (o : option Z) : bool :=
  match o with
  | Some n => negb (n =? 0)
  | None => false
  end.

(** Lines 34-46: the body of the loop over the words of a document. *)
Definition word_body (cls_name : string) (st : locals) (word_orig : string)
  : result locals :=
  let word := lower word_orig in
  let vs := set_add string_dec word (vocab_set st) in
  let wt := word_total st + 1 in
  v <- Dict.getitem cls_name (word_counts st) ;;
  d <- as_dict v ;;
  if truthy (Dict.get word d) then
    n <- Dict.getitem word d ;;
    Ok (mkLocals vs
          (Dict.set cls_name (VDict (Dict.set word (n + 1) d)) (word_counts st))
          (class_counts st) (class_total st) wt)
  else
    Ok (mkLocals vs
          (Dict.set cls_name (VDict (Dict.set word 1 d)) (word_counts st))
          (class_counts st) (class_total st) wt).

(** Lines 27-46: the body of the loop over the documents of a class. *)
Definition doc_body (cls_name : string) (st : locals) (doc : string)
  : result locals :=
  n <- Dict.getitem cls_name (class_counts st) ;;
  let st1 := mkLocals (vocab_set st) (word_counts st)
               (Dict.set cls_name (n + 1) (class_counts st))
               (class_total st + 1) (word_total st) in
  for_each (word_body cls_name) (split_space doc) st1.

(** Lines 21-49: the body of the loop over the classes. *)
Definition class_body (st : locals) (item : string * list string)
  : result locals :=
  let '(cls_name, docs) := item in
  let st1 := mkLocals (vocab_set st)
               (Dict.set cls_name (VDict Dict.empty) (word_counts st))
               (Dict.set cls_name 0 (class_counts st))
               (class_total st) 0 in
  st2 <- for_each (doc_body cls_name) docs st1 ;;
  Ok (mkLocals (vocab_set st2)
        (Dict.set "total" (VInt (word_total st2)) (word_counts st2))
        (class_counts st2) (class_total st2) (word_total st2)).

Definition init_locals : locals :=
  mkLocals (empty_set string) Dict.empty Dict.empty 0 0.

Definition parse_training_data (data_obj : corpus) : result model :=
  st <- for_each class_body data_obj init_locals ;;
  Ok (Z.of_nat (length (vocab_set st)),
      word_counts st,
      Dict.set "total" (class_total st) (class_counts st)).

Definition spam_corpus : corpus :=
  [("spam", ["win money now"]); ("not spam", ["call me back"])].

(** ** Floating point *)

(** The operations of Python [float] that the code uses. *)
Class PyFloat (F : Type) : Type := {
  of_int : Z -> F;
  fadd : F -> F -> F;
  fmul : F -> F -> F;
  fdiv : F -> F -> F;
  flog : F -> F;
  feqb : F -> F -> bool;
  fltb : F -> F -> bool
}.

(** Exact real arithmetic as an instance of [PyFloat]: the operations
    without rounding. *)
#[export] Instance R_float : PyFloat R := {|
  of_int := IZR;
  fadd := Rplus;
  fmul := Rmult;
  fdiv := Rdiv;
  flog := ln;
  feqb := fun a b => if Req_dec_T a b then true else false;
  fltb := fun a b => if Rlt_dec a b then true else false
|}.

(** ** Scoring and selection *)

(** [int + int] where the left operand is a value of [word_counts]:
    a [dict] cannot be added to an [int]. *)
Definition as_int (v : wc_value) : result Z :=
  match v with
  | VInt n => Ok n
  | VDict _ => Raise TypeError
  end.

Section Scoring.
Context {F : Type} {PF : PyFloat F}.

(** [a / b] on floats: a zero divisor raises. *)
Definition truediv (a b : F) : result F :=
  if feqb b (of_int 0) then Raise ZeroDivisionError else Ok (fdiv a b).

(** [math.log(x)]: a non-positive argument raises. *)
Definition math_log (x : F) : result F :=
  if (fltb x (of_int 0) || feqb x (of_int 0))%bool then Raise ValueError
  else Ok (flog x).

(** Lines 83-93: the body of the loop over the words of a test
    document, for the class [doc_cls] with counts [word_counts]. *)
Definition token_body (word_counter : Dict.t wc_value) (vocab : Z)
    (doc_cls : string) (word_counts : wc_value)
    (probabilities : Dict.t F) (word_orig : string) : result (Dict.t F) :=
  let word := lower word_orig in
  d <- as_dict word_counts ;;
  let word_instance :=
    match Dict.get word d with
    | Some n => if truthy (Some n) then n else 0
    | None => 0
    end in
  p <- Dict.getitem doc_cls probabilities ;;
  tv <- Dict.getitem "total" word_counter ;;
  t <- as_int tv ;;
  q <- truediv (of_int (word_instance + 1))
               (fmul (of_int (t + vocab)) (of_int 1)) ;;
  l <- math_log q ;;
  Ok (Dict.set doc_cls (fadd p l) probabilities).

(** Lines 73-93: the body of the loop over [word_counter.items()]. *)
Definition class_score_body (word_counter : Dict.t wc_value) (vocab : Z)
    (class_count : Dict.t Z) (doc : string)
    (probabilities : Dict.t F) (item : string * wc_value)
  : result (Dict.t F) :=
  let '(doc_cls, word_counts) := item in
  if String.eqb doc_cls "total" then Ok probabilities
  else
    n <- Dict.getitem doc_cls class_count ;;
    t <- Dict.getitem "total" class_count ;;
    q <- truediv (of_int n) (fmul (of_int t) (of_int 1)) ;;
    l <- math_log q ;;
    for_each (token_body word_counter vocab doc_cls word_counts)
             (split_space doc) (Dict.set doc_cls l probabilities).

(** Lines 69-96: the body of the loop over the test documents. *)
Definition doc_score_body (word_counter : Dict.t wc_value) (vocab : Z)
    (class_count : Dict.t Z)
    (rslt : list (Dict.t F)) (doc : string) : result (list (Dict.t F)) :=
  probabilities <-
    for_each (class_score_body word_counter vocab class_count doc)
             word_counter Dict.empty ;;
  Ok (rslt ++ [probabilities])%list.

Definition calculate_probability (word_counter : Dict.t wc_value)
    (vocab : Z) (class_count : Dict.t Z) (test_documents : list string)
  : result (list (Dict.t F)) :=
  for_each (doc_score_body word_counter vocab class_count) test_documents [].

(** Lines 119-122: one step of the search for the largest score;
    the state is [(max_prob, max_cls)], [None] being Python's [None]. *)
Definition select_body (st : option F * option string) (item : string * F)
  : option F * option string :=
  let '(cls_name, prob) := item in
  match fst st with
  | None => (Some prob, Some cls_name)
  | Some max_prob =>
      if fltb max_prob prob then (Some prob, Some cls_name) else st
  end.

(** Lines 115-125: the class appended for one score dictionary. *)
Definition select_class (prob_obj : Dict.t F) : option string :=
  snd (fold_left select_body prob_obj (None, None)).

Definition predict (parsed_train_data : model) (test_data : list string)
  : result (list (option string)) :=
  let '(vocab, word_counts, class_counts) := parsed_train_data in
  probabilities <-
    calculate_probability word_counts vocab class_counts test_data ;;
  Ok (fold_left (fun rslt_classes prob_obj =>
                   (rslt_classes ++ [select_class prob_obj])%list)
                probabilities []).

(** The value of a global name of the module. *)
Definition global (name : string) (globals : Dict.t corpus) : result corpus :=
  match Dict.get name globals with
  | Some v => Ok v
  | None => Raise (NameError name)
  end.

(** [naive_bayes_text] reads the name [training_data], which is not
    one of its parameters: it is looked up in the module's globals. *)
Definition naive_bayes_text (globals : Dict.t corpus)
    (train_data : corpus) (test_data : list string)
  : result (list (option string)) :=
  training_data <- global "training_data" globals ;;
  parsed_obj <- parse_training_data training_data ;;
  predict parsed_obj test_data.
End Scoring.

(** ** Closed forms used in the statements *)

(** The tokens of a document as both loops see them. *)
Definition doc_words (doc : string) : list string :=
  map lower (split_space doc).

(** The token occurrences of the documents of one class, in order. *)
Definition class_words (docs : list string) : list string :=
  flat_map doc_words docs.

(** Number of token occurrences in the documents of one class. *)
Definition count_tokens (docs : list string) : Z :=
  Z.of_nat (length (class_words docs)).


(** One more occurrence of [word] in the table of a class. *)
Definition incr (d : Dict.t Z) (word : string) : Dict.t Z :=
  if truthy (Dict.get word d) then
    match Dict.get word d with
    | Some n => Dict.set word (n + 1) d
    | None => d
    end
  else Dict.set word 1 d.

Definition tally (words : list string) (d : Dict.t Z) : Dict.t Z :=
  fold_left incr words d.

Definition vocab_add (words : list string) (vs : set string) : set string :=
  fold_left (fun vs w => set_add string_dec w vs) words vs.

(** The effect of one iteration of the loop over the classes. *)
Definition class_step (st : locals) (item : string * list string) : locals :=
  let '(cls_name, docs) := item in
  mkLocals
    (vocab_add (class_words docs) (vocab_set st))
    (Dict.set "total" (VInt (count_tokens docs))
       (Dict.set cls_name (VDict (tally (class_words docs) Dict.empty))
          (word_counts st)))
    (Dict.set cls_name (Z.of_nat (length docs)) (class_counts st))
    (class_total st + Z.of_nat (length docs))
    (count_tokens docs).

(** The state after the loop over the classes. *)
Definition trained (data_obj : corpus) : locals :=
  fold_left class_step data_obj init_locals.

(** [sum(d[w] for w in d)] *)
Definition sum_values (d : Dict.t Z) : Z :=
  fold_right Z.add 0 (map snd d).

(** [sum(class_counts[c] for c in class_counts if c != 'total')] *)
Definition real_class_sum (cc : Dict.t Z) : Z :=
  sum_values (filter (fun kv => negb (String.eqb (fst kv) "total")) cc).

(** The count the scoring loop reads for [word] in the table [d]. *)
Definition word_instance (d : Dict.t Z) (word : string) : Z :=
  match Dict.get word d with
  | Some n => n
  | None => 0
  end.

Definition fails {A : Type} (r : result A) : Prop :=
  exists e, r = Raise e.

Definition doc_counts (data_obj : corpus) : Dict.t Z :=
  map (fun item => (fst item, Z.of_nat (length (snd item)))) data_obj.

Definition total_docs (data_obj : corpus) : Z :=
  fold_right Z.add 0 (map (fun item => Z.of_nat (length (snd item))) data_obj).

(** Every count stored in a class table is at least one. *)
Definition counts_positive (wc : Dict.t wc_value) : Prop :=
  forall k d, In (k, VDict d) wc -> Forall (fun kv => 1 <= snd kv) d.

Section ScoringForms.
Context {F : Type} {PF : PyFloat F}.

(** The term added for one token: the log of the smoothed ratio with
    numerator [count + 1] and denominator [(total + vocab) * 1.0]. *)
Definition smoothed_log (count total vocab : Z) : result F :=
  q <- truediv (of_int (count + 1)) (fmul (of_int (total + vocab)) (of_int 1)) ;;
  math_log q.

(** [c] is the class of the first item of [prob_obj] whose score no
    other item exceeds: no score is strictly greater than its score
    [p], and every earlier score is strictly smaller. *)
Definition first_greatest (prob_obj : Dict.t F) (c : string) : Prop :=
  exists (i : nat) (p : F),
    nth_error prob_obj i = Some (c, p) /\
    (forall j c' q, nth_error prob_obj j = Some (c', q) -> fltb p q = false) /\
    (forall j c' q, (j < i)%nat -> nth_error prob_obj j = Some (c', q) ->
                    fltb q p = true).

End ScoringForms.

(** The argument of [log] for one token, as a real number. *)
Definition smoothed_ratio (count total vocab : Z) : R :=
  (IZR (count + 1) / (IZR (total + vocab) * 1))%R.

(** The score of a class after the loop over the words of a document. *)
Definition add_terms (d : Dict.t Z) (total vocab : Z) (words : list string)
    (p : R) : R :=
  fold_left (fun acc w =>
               (acc + ln (smoothed_ratio (word_instance d (lower w)) total vocab))%R)
            words p.

(** ** Example inputs *)

Definition spam_counts : Dict.t Z := [("win", 1); ("money", 1); ("now", 1)].

Definition not_spam_counts : Dict.t Z := [("call", 1); ("me", 1); ("back", 1)].

Definition spam_word_counts : Dict.t wc_value :=
  [("spam", VDict spam_counts); ("total", VInt 3);
   ("not spam", VDict not_spam_counts)].

Definition spam_class_counts : Dict.t Z :=
  [("spam", 1); ("not spam", 1); ("total", 2)].

Definition spam_model : model := (6, spam_word_counts, spam_class_counts).

Definition uneven_corpus : corpus :=
  [("spam", ["win money now"]); ("not spam", ["call me"])].

(** The two scores of the end-to-end example for the document
    ["win money"], term by term as the code adds them: the log of the
    prior [1 / (2 * 1.0)], then for each of the two tokens the log of
    [(count + 1) / ((3 + 6) * 1.0)]. *)
Definition spam_score : R :=
  (ln (1 / (2 * 1)) + ln (2 / (9 * 1)) + ln (2 / (9 * 1)))%R.

Definition not_spam_score : R :=
  (ln (1 / (2 * 1)) + ln (1 / (9 * 1)) + ln (1 / (9 * 1)))%R.

(** Two classes tie for the largest score: the first of them is kept. *)
Definition tied_scores : Dict.t R :=
  [("a", 1%R); ("b", 2%R); ("c", 2%R)].

(** ** Text on which [lower] is [str.lower()] *)

(** [s] holds ASCII characters only. On such a string [str.lower()]
    changes the letters [A]-[Z] and nothing else, which is what [lower]
    does; on other text [str.lower()] also folds the cased letters
    outside ASCII, which [lower] leaves as they are. *)
Definition is_ascii (s : string) : bool :=
  forallb (fun c => Nat.ltb (nat_of_ascii c) 128) (list_ascii_of_string s).

Definition ascii_docs (docs : list string) : bool := forallb is_ascii docs.

Definition ascii_corpus (data_obj : corpus) : bool :=
  forallb (fun item => ascii_docs (snd item)) data_obj.

(** ** Closed forms used for the further properties *)

(** All token occurrences of the corpus, class after class. *)
Definition corpus_words (data_obj : corpus) : list string :=
  flat_map (fun item => class_words (snd item)) data_obj.

(** The table of token counts of one class. *)
Definition class_table (docs : list string) : Dict.t Z :=
  tally (class_words docs) Dict.empty.

(** The corpus with every document lower-cased. *)
Definition lower_corpus (data_obj : corpus) : corpus :=
  map (fun item => (fst item, map lower (snd item))) data_obj.

(** The entries of [word_counts] for a list of classes. *)
Definition wc_items (data_obj : corpus) : Dict.t wc_value :=
  map (fun item => (fst item, VDict (class_table (snd item)))) data_obj.

(** Every class has a label of its own, other than the reserved
    ['total'], and at least one document. *)
Definition well_formed (data_obj : corpus) : Prop :=
  NoDup (map fst data_obj) /\ ~ In "total" (map fst data_obj) /\
  Forall (fun item => snd item <> []) data_obj.

(** Number of token occurrences of the class iterated last. *)
Definition last_class_tokens (data_obj : corpus) : Z :=
  count_tokens (snd (last data_obj ("", []))).

(** The score of the class with documents [docs] for [doc], in exact
    arithmetic: the log of the prior, then one smoothed term per token
    of [doc], added from left to right. *)
Definition class_score (T vocab N : Z) (doc : string) (docs : list string) : R :=
  add_terms (class_table docs) T vocab (split_space doc)
    (ln (IZR (Z.of_nat (length docs)) / (IZR N * 1))).

Definition scores_of (T vocab N : Z) (data_obj : corpus) (doc : string)
  : Dict.t R :=
  map (fun item => (fst item, class_score T vocab N doc (snd item))) data_obj.

(** The integer weight of a class for [doc]: its number of documents
    times, for every token of [doc], one more than the count of the
    token in the class. *)
Definition token_weight (d : Dict.t Z) (words : list string) (a : Z) : Z :=
  fold_left (fun acc w => acc * (word_instance d (lower w) + 1)) words a.

Definition class_weight (doc : string) (docs : list string) : Z :=
  token_weight (class_table docs) (split_space doc) (Z.of_nat (length docs)).

Definition weights_of (data_obj : corpus) (doc : string) : Dict.t Z :=
  map (fun item => (fst item, class_weight doc (snd item))) data_obj.

(** First key with the largest value, by the same search as
    [select_body] over integers. *)
Definition argmax_body (st : option Z * option string) (item : string * Z)
  : option Z * option string :=
  match fst st with
  | None => (Some (snd item), Some (fst item))
  | Some m => if m <? snd item then (Some (snd item), Some (fst item)) else st
  end.

Definition argmax_weight (ws : Dict.t Z) : option string :=
  snd (fold_left argmax_body ws (None, None)).

(** [c] is the key of the first item of [ws] with the largest value. *)
Definition first_max (ws : Dict.t Z) (c : string) : Prop :=
  exists (i : nat) (w : Z),
    nth_error ws i = Some (c, w) /\
    (forall j c' w', nth_error ws j = Some (c', w') -> w' <= w) /\
    (forall j c' w', (j < i)%nat -> nth_error ws j = Some (c', w') -> w' < w).


(** The part of a score that is the same for every class. *)
Definition score_offset (T vocab : Z) (words : list string) (K : R) : R :=
  fold_left (fun acc _ => (acc + ln (IZR (T + vocab) * 1))%R) words K.

(** ** The script ([__main__]) *)





(** ** Dictionaries: lookup after assignment *)

Module DictFacts.
Section DictFacts.
Context {V : Type}.
Implicit Types (d : Dict.t V) (k : string) (v : V).

Lemma get_set_eq k v d : Dict.get k (Dict.set k v d) = Some v.
Proof.
  induction d as [|[k' v'] d IH]; simpl.
  - now rewrite String.eqb_refl.
  - destruct (String.eqb k k') eqn:E; simpl; rewrite ?String.eqb_refl, ?E; auto.
Qed.

Lemma get_set_neq k k' v d :
  k <> k' -> Dict.get k (Dict.set k' v d) = Dict.get k d.
Proof.
  intros Hne. induction d as [|[k2 v2] d IH]; simpl.
  - apply String.eqb_neq in Hne. now rewrite Hne.
  - destruct (String.eqb k' k2) eqn:E; simpl.
    + apply String.eqb_eq in E. subst k2.
      apply String.eqb_neq in Hne. now rewrite Hne.
    + destruct (String.eqb k k2); auto.
Qed.

Lemma set_set k v v' d : Dict.set k v (Dict.set k v' d) = Dict.set k v d.
Proof.
  induction d as [|[k2 v2] d IH]; simpl.
  - now rewrite String.eqb_refl.
  - destruct (String.eqb k k2) eqn:E; simpl; rewrite ?String.eqb_refl, ?E; auto.
    now rewrite IH.
Qed.

Lemma set_get_id k v d : Dict.get k d = Some v -> Dict.set k v d = d.
Proof.
  induction d as [|[k2 v2] d IH]; simpl; [discriminate|].
  destruct (String.eqb k k2) eqn:E; intros H.
  - apply String.eqb_eq in E. congruence.
  - now rewrite IH.
Qed.

Lemma get_None_notin k d : Dict.get k d = None <-> ~ In k (Dict.keys d).
Proof.
  induction d as [|[k2 v2] d IH]; simpl; [tauto|].
  destruct (String.eqb_spec k k2) as [->|Hne].
  - split; [discriminate | intros H; exfalso; apply H; now left].
  - rewrite IH. split; [intros H [E|Hin]; [congruence | tauto] | tauto].
Qed.

Lemma set_notin k v d :
  ~ In k (Dict.keys d) -> Dict.set k v d = (d ++ [(k, v)])%list.
Proof.
  induction d as [|[k2 v2] d IH]; simpl; [reflexivity|]. intros Hn.
  destruct (String.eqb_spec k k2) as [->|Hne]; [tauto|].
  rewrite IH; tauto.
Qed.

Lemma keys_set k v d k' :
  In k' (Dict.keys (Dict.set k v d)) <-> k' = k \/ In k' (Dict.keys d).
Proof.
  induction d as [|[k2 v2] d IH]; simpl; [intuition congruence|].
  destruct (String.eqb_spec k k2) as [->|Hne]; simpl; [intuition congruence|].
  rewrite IH. intuition.
Qed.

Lemma get_Some_in k v d : Dict.get k d = Some v -> In (k, v) d.
Proof.
  induction d as [|[k2 v2] d IH]; simpl; [discriminate|].
  destruct (String.eqb_spec k k2) as [->|Hne]; intros H.
  - left. congruence.
  - right. auto.
Qed.

Lemma in_get_some k v d : In (k, v) d -> exists v', Dict.get k d = Some v'.
Proof.
  induction d as [|[k2 v2] d IH]; simpl; [tauto|].
  destruct (String.eqb_spec k k2) as [->|Hne]; intros [H|H]; eauto.
  congruence.
Qed.
End DictFacts.
End DictFacts.

(** ** Loops *)

Lemma for_each_app {S A : Type} (body : S -> A -> result S) (l1 l2 : list A)
    (s : S) :
  for_each body (l1 ++ l2) s = (s' <- for_each body l1 s ;; for_each body l2 s').
Proof.
  revert s. induction l1 as [|a l1 IH]; intros s; simpl; [reflexivity|].
  destruct (body s a); simpl; auto.
Qed.

(** A loop whose body never raises is a left fold. *)
Lemma for_each_total {S A : Type} (body : S -> A -> result S) (f : S -> A -> S)
    (l : list A) (s : S) :
  (forall s a, body s a = Ok (f s a)) ->
  for_each body l s = Ok (fold_left f l s).
Proof.
  intros Hb. revert s. induction l as [|a l IH]; intros s; simpl; [reflexivity|].
  rewrite Hb. simpl. apply IH.
Qed.

Lemma split_space_nonempty (s : string) : split_space s <> [].
Proof.
  destruct s as [|c s]; simpl; [discriminate|].
  destruct (Ascii.eqb c " "); [discriminate|].
  destruct (split_space s); discriminate.
Qed.

(** ** The string operations on examples *)

Example split_space_adjacent : split_space "a  b" = ["a"; ""; "b"].
Proof. reflexivity. Qed.

Example split_space_empty : split_space "" = [""].
Proof. reflexivity. Qed.

Example lower_mixed_case : map lower (split_space "Win win WIN") = ["win"; "win"; "win"].
Proof. reflexivity. Qed.

Example parse_case_folding :
  parse_training_data [("a", ["Win win WIN"])] =
  Ok (1, [("a", VDict [("win", 3)]); ("total", VInt 3)], [("a", 1); ("total", 1)]).
Proof. vm_compute. reflexivity. Qed.

(** ** Training never raises: the closed form of each loop *)

Lemma word_body_eq (cls_name : string) (st : locals) (d : Dict.t Z)
    (word_orig : string) :
  Dict.get cls_name (word_counts st) = Some (VDict d) ->
  word_body cls_name st word_orig =
  Ok (mkLocals (set_add string_dec (lower word_orig) (vocab_set st))
        (Dict.set cls_name (VDict (incr d (lower word_orig))) (word_counts st))
        (class_counts st) (class_total st) (word_total st + 1)).
Proof.
  intros Hget. unfold word_body, Dict.getitem, incr. rewrite Hget. simpl.
  destruct (Dict.get (lower word_orig) d) as [n|] eqn:E; simpl; [|reflexivity].
  destruct (n =? 0); reflexivity.
Qed.

Lemma words_loop_eq (cls_name : string) (words : list string) :
  forall (st : locals) (d : Dict.t Z),
  Dict.get cls_name (word_counts st) = Some (VDict d) ->
  for_each (word_body cls_name) words st =
  Ok (mkLocals (vocab_add (map lower words) (vocab_set st))
        (Dict.set cls_name (VDict (tally (map lower words) d)) (word_counts st))
        (class_counts st) (class_total st)
        (word_total st + Z.of_nat (length words))).
Proof.
  induction words as [|w words IH]; intros st d Hget.
  - simpl. rewrite (DictFacts.set_get_id _ _ _ Hget), Z.add_0_r.
    now destruct st.
  - cbn [for_each]. rewrite (word_body_eq _ _ _ _ Hget). cbn [bind].
    erewrite IH by (cbn [word_counts]; apply DictFacts.get_set_eq).
    cbn [vocab_set word_counts class_counts class_total word_total].
    rewrite DictFacts.set_set. cbn [map length vocab_add tally fold_left].
    do 2 f_equal. lia.
Qed.

Lemma docs_loop_eq (cls_name : string) (docs : list string) :
  forall (st : locals) (d : Dict.t Z) (n : Z),
  Dict.get cls_name (word_counts st) = Some (VDict d) ->
  Dict.get cls_name (class_counts st) = Some n ->
  for_each (doc_body cls_name) docs st =
  Ok (mkLocals (vocab_add (class_words docs) (vocab_set st))
        (Dict.set cls_name (VDict (tally (class_words docs) d)) (word_counts st))
        (Dict.set cls_name (n + Z.of_nat (length docs)) (class_counts st))
        (class_total st + Z.of_nat (length docs))
        (word_total st + count_tokens docs)).
Proof.
  induction docs as [|doc docs IH]; intros st d n Hw Hc.
  - simpl. unfold count_tokens. simpl.
    rewrite (DictFacts.set_get_id _ _ _ Hw), !Z.add_0_r,
      (DictFacts.set_get_id _ _ _ Hc).
    now destruct st.
  - cbn [for_each]. unfold doc_body at 1. unfold Dict.getitem. rewrite Hc.
    cbn [bind]. erewrite words_loop_eq by (cbn [word_counts]; exact Hw).
    cbn [bind vocab_set word_counts class_counts class_total word_total].
    erewrite IH; cbn [vocab_set word_counts class_counts class_total word_total];
      [| apply DictFacts.get_set_eq | apply DictFacts.get_set_eq].
    rewrite !DictFacts.set_set.
    unfold count_tokens, class_words, vocab_add, tally, doc_words.
    cbn [flat_map length]. rewrite !fold_left_app, !length_app, length_map.
    do 2 f_equal; [f_equal; lia | lia | lia].
Qed.

Lemma class_body_eq (st : locals) (item : string * list string) :
  class_body st item = Ok (class_step st item).
Proof.
  destruct item as [cls_name docs]. unfold class_body, class_step.
  erewrite docs_loop_eq;
    cbn [vocab_set word_counts class_counts class_total word_total];
    [| apply DictFacts.get_set_eq | apply DictFacts.get_set_eq].
  cbn [bind vocab_set word_counts class_counts class_total word_total].
  rewrite !DictFacts.set_set, !Z.add_0_l. reflexivity.
Qed.

Lemma parse_training_data_eq (data_obj : corpus) :
  parse_training_data data_obj =
  Ok (Z.of_nat (length (vocab_set (trained data_obj))),
      word_counts (trained data_obj),
      Dict.set "total" (class_total (trained data_obj))
        (class_counts (trained data_obj))).
Proof.
  unfold parse_training_data.
  rewrite (for_each_total class_body class_step data_obj init_locals class_body_eq).
  reflexivity.
Qed.

Lemma trained_snoc (init : corpus) (item : string * list string) :
  trained (init ++ [item]) = class_step (trained init) item.
Proof. unfold trained. now rewrite fold_left_app. Qed.

(** After training, ['total'] holds the running word total of the class
    that was iterated last. *)
Lemma word_total_last (init : corpus) (cls_name : string) (docs : list string) :
  Dict.get "total" (word_counts (trained (init ++ [(cls_name, docs)]))) =
  Some (VInt (count_tokens docs)).
Proof.
  rewrite trained_snoc. cbn [class_step word_counts].
  apply DictFacts.get_set_eq.
Qed.

Lemma count_tokens_nonneg (docs : list string) : 0 <= count_tokens docs.
Proof. unfold count_tokens. lia. Qed.



(** ** The document counts *)

Lemma class_total_fold (data_obj : corpus) (st : locals) :
  class_total (fold_left class_step data_obj st) =
  class_total st + total_docs data_obj.
Proof.
  revert st. induction data_obj as [|[c docs] l IH]; intros st; cbn.
  - lia.
  - rewrite IH. cbn. unfold total_docs. lia.
Qed.

Lemma class_counts_fold (data_obj : corpus) :
  forall st : locals,
  NoDup (map fst data_obj) ->
  (forall k, In k (map fst data_obj) -> ~ In k (Dict.keys (class_counts st))) ->
  class_counts (fold_left class_step data_obj st) =
  (class_counts st ++ doc_counts data_obj)%list.
Proof.
  induction data_obj as [|[c docs] l IH]; intros st Hnd Hfresh; cbn.
  - now rewrite app_nil_r.
  - inversion Hnd as [|? ? Hc Hl]; subst.
    rewrite IH; cbn [class_step class_counts]; auto.
    + rewrite DictFacts.set_notin by (apply Hfresh; now left).
      now rewrite <- app_assoc.
    + intros k Hk Hin. apply DictFacts.keys_set in Hin.
      destruct Hin as [->|Hin]; [apply Hc, Hk|].
      apply (Hfresh k); [now right | exact Hin].
Qed.

Lemma doc_counts_keys (data_obj : corpus) :
  Dict.keys (doc_counts data_obj) = map fst data_obj.
Proof.
  unfold Dict.keys, doc_counts. rewrite map_map. reflexivity.
Qed.

Lemma real_class_sum_doc_counts (data_obj : corpus) (n : Z) :
  ~ In "total" (map fst data_obj) ->
  real_class_sum (doc_counts data_obj ++ [("total", n)]) = total_docs data_obj.
Proof.
  unfold real_class_sum, sum_values, total_docs.
  induction data_obj as [|[c docs] l IH]; intros Hn.
  - reflexivity.
  - cbn [doc_counts map app filter fst snd].
    destruct (String.eqb_spec c "total") as [->|Hne].
    + exfalso. apply Hn. now left.
    + cbn [negb map fold_right snd]. f_equal. apply IH.
      intros Hin. apply Hn. now right.
Qed.

Lemma doc_counts_get (data_obj : corpus) (c : string) (docs : list string) :
  NoDup (map fst data_obj) -> In (c, docs) data_obj ->
  Dict.get c (doc_counts data_obj) = Some (Z.of_nat (length docs)).
Proof.
  induction data_obj as [|[c' docs'] l IH]; intros Hnd Hin; [contradiction|].
  inversion Hnd as [|? ? Hc Hl]; subst. cbn.
  destruct Hin as [E|Hin].
  - inversion E; subst. now rewrite String.eqb_refl.
  - destruct (String.eqb_spec c c') as [->|Hne]; [|auto].
    exfalso. apply Hc. change c' with (fst (c', docs)). now apply in_map.
Qed.

Lemma get_app_l {V : Type} (k : string) (d1 d2 : Dict.t V) (v : V) :
  Dict.get k d1 = Some v -> Dict.get k (d1 ++ d2)%list = Some v.
Proof.
  induction d1 as [|[k' v'] d1 IH]; cbn; [discriminate|].
  destruct (String.eqb k k'); auto.
Qed.

(** C6. For every corpus (a dictionary, so its class labels are
    distinct) that does not use the reserved label ['total'] as a class,
    the [class_counts] returned by [parse_training_data] gives every
    class its number of documents, and the sum of [class_counts[c]] over
    the keys [c] other than ['total'] equals [class_counts['total']]. *)
Theorem class_counts_sum_total (data_obj : corpus) :
  NoDup (map fst data_obj) ->
  ~ In "total" (map fst data_obj) ->
  exists vocab wc cc,
    parse_training_data data_obj = Ok (vocab, wc, cc) /\
    Dict.getitem "total" cc = Ok (real_class_sum cc) /\
    forall c docs, In (c, docs) data_obj ->
      Dict.get c cc = Some (Z.of_nat (length docs)).
Proof.
  intros Hnd Hres. rewrite parse_training_data_eq.
  do 3 eexists. split; [reflexivity|].
  unfold trained. rewrite class_total_fold, class_counts_fold; auto.
  change (class_counts init_locals ++ doc_counts data_obj)
    with (doc_counts data_obj).
  change (class_total init_locals + total_docs data_obj)
    with (total_docs data_obj).
  assert (Hfresh : ~ In "total" (Dict.keys (doc_counts data_obj)))
    by (now rewrite doc_counts_keys).
  split.
  - unfold Dict.getitem. rewrite DictFacts.get_set_eq.
    rewrite DictFacts.set_notin by exact Hfresh.
    now rewrite real_class_sum_doc_counts.
  - intros c docs Hin. rewrite DictFacts.set_notin by exact Hfresh.
    apply get_app_l. now apply doc_counts_get.
Qed.

(** The hypothesis on the reserved label is needed: a class named
    ['total'] has its document count overwritten by the grand total. *)
Example reserved_label_collision :
  parse_training_data [("total", ["a"]); ("x", ["b"])] =
  Ok (2, [("total", VInt 1); ("x", VDict [("b", 1)])], [("total", 2); ("x", 1)]) /\
  real_class_sum [("total", 2); ("x", 1)] = 1.
Proof. split; vm_compute; reflexivity. Qed.

Lemma class_counts_sum_total_witness :
  exists vocab wc cc,
    parse_training_data spam_corpus = Ok (vocab, wc, cc) /\
    Dict.getitem "total" cc = Ok (real_class_sum cc) /\
    forall c docs, In (c, docs) spam_corpus ->
      Dict.get c cc = Some (Z.of_nat (length docs)).
Proof.
  apply (class_counts_sum_total spam_corpus).
  - repeat constructor; simpl; intuition discriminate.
  - simpl. intuition discriminate.
Defined.

(** ** Scoring: the per-token term *)

Section ScoringFacts.
Context {F : Type} {PF : PyFloat F}.

Lemma word_instance_eq (d : Dict.t Z) (word : string) :
  match Dict.get word d with
  | Some n => if truthy (Some n) then n else 0
  | None => 0
  end = word_instance d word.
Proof.
  unfold word_instance. destruct (Dict.get word d) as [n|]; [|reflexivity].
  cbn. destruct (Z.eqb_spec n 0); cbn; congruence.
Qed.

Lemma token_body_eq (word_counter : Dict.t wc_value) (vocab total : Z)
    (doc_cls : string) (d : Dict.t Z) (probabilities : Dict.t F)
    (word_orig : string) (p : F) :
  Dict.get "total" word_counter = Some (VInt total) ->
  Dict.get doc_cls probabilities = Some p ->
  token_body word_counter vocab doc_cls (VDict d) probabilities word_orig =
  (l <- smoothed_log (word_instance d (lower word_orig)) total vocab ;;
   Ok (Dict.set doc_cls (fadd p l) probabilities)).
Proof.
  intros Ht Hp. unfold token_body, smoothed_log, Dict.getitem.
  cbn [as_dict bind]. cbv zeta. rewrite Ht, Hp, word_instance_eq.
  cbn [as_int bind].
  destruct (truediv _ _); reflexivity.
Qed.



End ScoringFacts.



(** ** Selection of the largest score *)

Section Selection.
Context {F : Type} {PF : PyFloat F}.

Lemma predict_eq (vocab : Z) (wc : Dict.t wc_value) (cc : Dict.t Z)
    (test_data : list string) :
  predict (vocab, wc, cc) test_data =
  (probabilities <- calculate_probability wc vocab cc test_data ;;
   Ok (map select_class probabilities)).
Proof.
  unfold predict. destruct (calculate_probability wc vocab cc test_data) as [ps|e];
    [|reflexivity].
  cbn [bind]. f_equal.
  enough (H : forall acc,
             fold_left (fun r prob_obj => r ++ [select_class prob_obj]) ps acc =
             acc ++ map select_class ps) by apply (H []).
  induction ps as [|x ps IH]; intros acc; cbn.
  - now rewrite app_nil_r.
  - rewrite IH, <- app_assoc. reflexivity.
Qed.

Lemma select_fold_in (l : Dict.t F) :
  forall (p : F) (c : string),
  exists c', snd (fold_left select_body l (Some p, Some c)) = Some c' /\
             (c' = c \/ In c' (Dict.keys l)).
Proof.
  induction l as [|[c1 q] l IH]; intros p c; cbn [fold_left].
  - exists c. cbn. auto.
  - unfold select_body at 2. cbn [fst].
    destruct (fltb p q).
    + destruct (IH q c1) as (c' & E & Hin). exists c'. split; [exact E|].
      right. destruct Hin as [->|Hin]; cbn; auto.
    + destruct (IH p c) as (c' & E & Hin). exists c'. split; [exact E|].
      destruct Hin as [->|Hin]; cbn; auto.
Qed.

Lemma select_class_in (prob_obj : Dict.t F) :
  prob_obj <> [] ->
  exists c, select_class prob_obj = Some c /\ In c (Dict.keys prob_obj).
Proof.
  destruct prob_obj as [|[c p] l]; [congruence|]. intros _.
  unfold select_class. cbn [fold_left select_body fst].
  destruct (select_fold_in l p c) as (c' & E & Hin). exists c'.
  split; [exact E|]. destruct Hin as [->|Hin]; cbn; auto.
Qed.

Section Order.
Hypothesis fltb_irrefl : forall a : F, fltb a a = false.
Hypothesis fltb_trans :
  forall a b c : F, fltb a b = true -> fltb b c = true -> fltb a c = true.
Hypothesis fltb_negtrans :
  forall a b c : F, fltb a b = true -> fltb a c = false -> fltb c b = true.

Lemma select_fold_first_greatest (rest : Dict.t F) :
  forall (pre : Dict.t F) (i : nat) (p : F) (c : string),
  nth_error pre i = Some (c, p) ->
  (forall j c' q, nth_error pre j = Some (c', q) -> fltb p q = false) ->
  (forall j c' q, (j < i)%nat -> nth_error pre j = Some (c', q) ->
                  fltb q p = true) ->
  exists c2, snd (fold_left select_body rest (Some p, Some c)) = Some c2 /\
             first_greatest (pre ++ rest) c2.
Proof.
  induction rest as [|[c1 q] rest IH]; intros pre i p c Hi Hmax Hfirst.
  - exists c. split; [reflexivity|]. rewrite app_nil_r.
    exists i, p. auto.
  - cbn [fold_left]. unfold select_body at 2. cbn [fst].
    assert (Hlt : (i < length pre)%nat)
      by (apply nth_error_Some; congruence).
    replace (pre ++ (c1, q) :: rest) with ((pre ++ [(c1, q)]) ++ rest)
      by (now rewrite <- app_assoc).
    destruct (fltb p q) eqn:Epq.
    + apply (IH (pre ++ [(c1, q)]) (length pre)).
      * rewrite nth_error_app2, Nat.sub_diag by lia. reflexivity.
      * intros j c' q' Hj.
        destruct (Nat.lt_ge_cases j (length pre)) as [Hjl|Hjl].
        -- rewrite nth_error_app1 in Hj by exact Hjl.
           destruct (fltb q q') eqn:Eqq; [|reflexivity].
           pose proof (fltb_trans _ _ _ Epq Eqq) as Hc.
           rewrite (Hmax j c' q' Hj) in Hc. discriminate.
        -- rewrite nth_error_app2 in Hj by exact Hjl.
           destruct (j - length pre)%nat as [|n] eqn:En; cbn in Hj.
           ++ inversion Hj; subst. apply fltb_irrefl.
           ++ destruct n; discriminate.
      * intros j c' q' Hjl Hj. rewrite nth_error_app1 in Hj by exact Hjl.
        apply (fltb_negtrans _ _ _ Epq (Hmax j c' q' Hj)).
    + apply (IH (pre ++ [(c1, q)]) i).
      * rewrite nth_error_app1 by exact Hlt. exact Hi.
      * intros j c' q' Hj.
        destruct (Nat.lt_ge_cases j (length pre)) as [Hjl|Hjl].
        -- rewrite nth_error_app1 in Hj by exact Hjl. eauto.
        -- rewrite nth_error_app2 in Hj by exact Hjl.
           destruct (j - length pre)%nat as [|n] eqn:En; cbn in Hj.
           ++ inversion Hj; subst. exact Epq.
           ++ destruct n; discriminate.
      * intros j c' q' Hji Hj.
        rewrite nth_error_app1 in Hj by lia. eauto.
Qed.

(** C7. [predict] maps every score dictionary returned by
    [calculate_probability] to [select_class] of it; for every
    score dictionary, [select_class] is [None] only for the empty
    dictionary and otherwise is the class of the first item, in
    iteration order, whose score no other score strictly exceeds
    (every earlier score is strictly smaller, so among exact ties
    the first is kept); and one step of the search replaces the
    current maximum by a later class only when its score is
    strictly greater. The order [<] on scores is assumed
    irreflexive, transitive and negatively transitive. *)
Theorem select_class_first_greatest :
  (forall vocab wc cc test_data,
     predict (vocab, wc, cc) test_data =
     (probabilities <- calculate_probability wc vocab cc test_data ;;
      Ok (map select_class probabilities))) /\
  (forall prob_obj : Dict.t F,
     match select_class prob_obj with
     | Some c => first_greatest prob_obj c
     | None => prob_obj = []
     end) /\
  (forall (max_prob prob : F) (max_cls : option string) (cls_name : string),
     select_body (Some max_prob, max_cls) (cls_name, prob) =
     if fltb max_prob prob then (Some prob, Some cls_name)
     else (Some max_prob, max_cls)).
Proof.
  split; [exact predict_eq|]. split; [|reflexivity].
  intros [|[c p] l]; [reflexivity|].
  unfold select_class. cbn [fold_left select_body fst].
  destruct (select_fold_first_greatest l [(c, p)] 0 p c) as (c2 & E & H).
  - reflexivity.
  - intros [|[|j]] c' q Hj; cbn in Hj; try discriminate.
    inversion Hj; subst. apply fltb_irrefl.
  - intros j c' q Hj. lia.
  - rewrite E. exact H.
Qed.
End Order.
End Selection.

(** ** Scoring: which classes are scored *)

Section ScoredClasses.
Context {F : Type} {PF : PyFloat F}.
Variables (word_counter : Dict.t wc_value) (vocab : Z) (class_count : Dict.t Z).

Lemma token_body_inv (doc_cls : string) (v : wc_value)
    (probabilities probabilities' : Dict.t F) (word_orig : string) :
  token_body word_counter vocab doc_cls v probabilities word_orig =
    Ok probabilities' ->
  exists x, probabilities' = Dict.set doc_cls x probabilities.
Proof.
  unfold token_body. destruct (as_dict v); cbn [bind]; [|discriminate].
  destruct (Dict.getitem doc_cls probabilities); cbn [bind]; [|discriminate].
  destruct (Dict.getitem "total" word_counter) as [tv|]; cbn [bind];
    [|discriminate].
  destruct (as_int tv); cbn [bind]; [|discriminate].
  destruct (truediv _ _) as [q|]; cbn [bind]; [|discriminate].
  destruct (math_log q); cbn [bind]; [|discriminate].
  intros E. inversion E. eauto.
Qed.

Lemma token_loop_keys (doc_cls : string) (v : wc_value) (words : list string) :
  forall probabilities probabilities' : Dict.t F,
  In doc_cls (Dict.keys probabilities) ->
  for_each (token_body word_counter vocab doc_cls v) words probabilities =
    Ok probabilities' ->
  forall k, In k (Dict.keys probabilities') <-> In k (Dict.keys probabilities).
Proof.
  induction words as [|w words IH]; intros ps ps' Hin E k; cbn in E.
  - inversion E. tauto.
  - destruct (token_body _ _ _ _ ps w) as [ps1|] eqn:E1; cbn in E;
      [|discriminate].
    destruct (token_body_inv _ _ _ _ _ E1) as (x & ->).
    rewrite (IH _ _ (proj2 (DictFacts.keys_set _ _ _ _) (or_introl eq_refl)) E).
    rewrite DictFacts.keys_set. intuition (subst; auto).
Qed.

Lemma class_loop_keys (doc : string) (items : Dict.t wc_value) :
  forall probabilities probabilities' : Dict.t F,
  for_each (class_score_body word_counter vocab class_count doc) items
    probabilities = Ok probabilities' ->
  forall k, In k (Dict.keys probabilities') <->
            In k (Dict.keys probabilities) \/
            (In k (Dict.keys items) /\ k <> "total").
Proof.
  induction items as [|[c v] items IH]; intros ps ps' E k; cbn in E.
  - inversion E. cbn. tauto.
  - destruct (String.eqb_spec c "total") as [->|Hne]; cbn in E.
    + rewrite (IH _ _ E). cbn. intuition congruence.
    + destruct (Dict.getitem c class_count); cbn in E; [|discriminate].
      destruct (Dict.getitem "total" class_count); cbn in E; [|discriminate].
      destruct (truediv _ _) as [q|]; cbn in E; [|discriminate].
      destruct (math_log q) as [l|]; cbn in E; [|discriminate].
      destruct (for_each _ (split_space doc) _) as [ps1|] eqn:E1; cbn in E;
        [|discriminate].
      rewrite (IH _ _ E).
      rewrite (token_loop_keys _ _ _ _ _
                 (proj2 (DictFacts.keys_set _ _ _ _) (or_introl eq_refl)) E1).
      rewrite DictFacts.keys_set. cbn. intuition (subst; auto).
Qed.

Lemma class_loop_skip (doc : string) (items : Dict.t wc_value)
    (probabilities : Dict.t F) :
  (forall k, In k (Dict.keys items) -> k = "total") ->
  for_each (class_score_body word_counter vocab class_count doc) items
    probabilities = Ok probabilities.
Proof.
  induction items as [|[c v] items IH]; intros Hall; cbn; [reflexivity|].
  rewrite (Hall c) by (now left). cbn. apply IH.
  intros k Hk. apply Hall. now right.
Qed.

Lemma doc_loop_inv (docs : list string) :
  forall rslt r : list (Dict.t F),
  for_each (doc_score_body word_counter vocab class_count) docs rslt = Ok r ->
  exists ps, r = rslt ++ ps /\
    Forall2 (fun doc p =>
               for_each (class_score_body word_counter vocab class_count doc)
                 word_counter Dict.empty = Ok p) docs ps.
Proof.
  induction docs as [|doc docs IH]; intros rslt r E; cbn [for_each] in E.
  - inversion E. exists []. rewrite app_nil_r. split; [reflexivity|constructor].
  - unfold doc_score_body at 1 in E.
    destruct (for_each (class_score_body word_counter vocab class_count doc)
                word_counter Dict.empty) as [p|] eqn:E1; cbn [bind] in E;
      [|discriminate].
    destruct (IH _ _ E) as (ps & -> & Hps). exists (p :: ps).
    rewrite <- app_assoc. split; [reflexivity|]. now constructor.
Qed.

Lemma doc_loop_skip (docs : list string) :
  (forall k, In k (Dict.keys word_counter) -> k = "total") ->
  forall rslt : list (Dict.t F),
  for_each (doc_score_body word_counter vocab class_count) docs rslt =
  Ok (rslt ++ map (fun _ => Dict.empty) docs).
Proof.
  intros Hall. induction docs as [|doc docs IH]; intros rslt; cbn [for_each map].
  - now rewrite app_nil_r.
  - unfold doc_score_body at 1. rewrite class_loop_skip by exact Hall.
    cbn [bind]. rewrite IH, <- app_assoc. reflexivity.
Qed.

Lemma doc_loop_raise (doc : string) (docs : list string)
    (rslt : list (Dict.t F)) (e : exn) :
  for_each (class_score_body word_counter vocab class_count doc)
    word_counter Dict.empty = Raise e ->
  for_each (doc_score_body word_counter vocab class_count) (doc :: docs) rslt =
  Raise e.
Proof.
  intros E. cbn [for_each]. unfold doc_score_body at 1. rewrite E. reflexivity.
Qed.

(** With a class that has an entry in [class_count] and a document
    total of zero, the division of the prior raises. *)
Lemma class_loop_zero_total (doc : string) (items : Dict.t wc_value) :
  feqb (fmul (of_int 0) (of_int 1)) (of_int 0) = true ->
  Dict.get "total" class_count = Some 0 ->
  (forall k, In k (Dict.keys items) -> k <> "total" ->
             exists n, Dict.get k class_count = Some n) ->
  (exists k, In k (Dict.keys items) /\ k <> "total") ->
  forall probabilities : Dict.t F,
  for_each (class_score_body word_counter vocab class_count doc) items
    probabilities = Raise ZeroDivisionError.
Proof.
  intros Hz Ht. induction items as [|[c v] items IH]; intros Hcc Hex ps.
  - destruct Hex as (k & [] & _).
  - cbn. destruct (String.eqb_spec c "total") as [->|Hne].
    + apply IH.
      * intros k Hk. apply Hcc. now right.
      * destruct Hex as (k & [Hk|Hk] & Hn); [cbn in Hk; congruence|eauto].
    + destruct (Hcc c (or_introl eq_refl) Hne) as (n & Hn).
      unfold Dict.getitem. rewrite Hn, Ht. cbn [bind].
      unfold truediv. rewrite Hz. reflexivity.
Qed.
End ScoredClasses.

(** ** Shape of a trained model *)

Lemma wc_keys_fold (data_obj : corpus) :
  forall (st : locals) (k : string),
  In k (Dict.keys (word_counts (fold_left class_step data_obj st))) <->
  In k (Dict.keys (word_counts st)) \/ In k (map fst data_obj) \/
  (k = "total" /\ data_obj <> []).
Proof.
  induction data_obj as [|[c docs] l IH]; intros st k; cbn [fold_left].
  - cbn. intuition congruence.
  - rewrite IH. cbn [class_step word_counts map fst].
    rewrite !DictFacts.keys_set. cbn [In].
    split; [|intuition (subst; auto)].
    intros [[E|[E|H]]|[H|[E H]]]; subst; auto.
    + right. right. split; [reflexivity|discriminate].
    + right. right. split; [reflexivity|discriminate].
Qed.

Lemma cc_keys_fold (data_obj : corpus) :
  forall (st : locals) (k : string),
  In k (Dict.keys (class_counts (fold_left class_step data_obj st))) <->
  In k (Dict.keys (class_counts st)) \/ In k (map fst data_obj).
Proof.
  induction data_obj as [|[c docs] l IH]; intros st k; cbn [fold_left].
  - cbn. tauto.
  - rewrite IH. cbn [class_step class_counts map fst].
    rewrite DictFacts.keys_set. cbn [In]. intuition (subst; auto).
Qed.

Lemma set_add_nonempty (a : string) (x : set string) :
  set_add string_dec a x <> [].
Proof.
  destruct x as [|b x]; cbn; [discriminate|].
  destruct (string_dec a b); discriminate.
Qed.

Lemma vocab_add_nonempty (words : list string) :
  forall vs : set string, vs <> [] \/ words <> [] -> vocab_add words vs <> [].
Proof.
  unfold vocab_add.
  induction words as [|w words IH]; intros vs H; cbn.
  - tauto.
  - apply IH. left. apply set_add_nonempty.
Qed.

Lemma class_words_nonempty (docs : list string) :
  docs <> [] -> class_words docs <> [].
Proof.
  destruct docs as [|doc docs]; [congruence|]. intros _.
  unfold class_words, doc_words. cbn [flat_map].
  pose proof (split_space_nonempty doc) as H.
  destruct (split_space doc); [congruence|discriminate].
Qed.

(** An empty vocabulary after training means no document was seen. *)
Lemma empty_vocab_no_docs (data_obj : corpus) :
  forall st : locals,
  vocab_set (fold_left class_step data_obj st) = [] ->
  vocab_set st = [] /\ total_docs data_obj = 0.
Proof.
  induction data_obj as [|[c docs] l IH]; intros st H; cbn [fold_left] in H.
  - split; [exact H|reflexivity].
  - destruct (IH _ H) as [Hv Hl]. cbn [class_step vocab_set] in Hv.
    destruct docs as [|doc docs].
    + cbn in Hv. split; [exact Hv|]. unfold total_docs in *. cbn. lia.
    + exfalso. revert Hv. apply vocab_add_nonempty. right.
      apply class_words_nonempty. discriminate.
Qed.

Lemma in_set_inv {V : Type} (k k' : string) (v v' : V) (m : Dict.t V) :
  In (k, v) (Dict.set k' v' m) -> (k, v) = (k', v') \/ In (k, v) m.
Proof.
  induction m as [|[k2 v2] m IH]; cbn.
  - intuition congruence.
  - destruct (String.eqb k' k2); cbn; intuition congruence.
Qed.

Lemma Forall_set {V : Type} (P : string * V -> Prop) (k : string) (v : V)
    (d : Dict.t V) :
  Forall P d -> P (k, v) -> Forall P (Dict.set k v d).
Proof.
  intros Hd Hv. apply Forall_forall. intros [k1 v1] Hin.
  destruct (in_set_inv _ _ _ _ _ Hin) as [E|H]; [now rewrite E|].
  rewrite Forall_forall in Hd. now apply Hd.
Qed.

Lemma incr_positive (d : Dict.t Z) (word : string) :
  Forall (fun kv => 1 <= snd kv) d -> Forall (fun kv => 1 <= snd kv) (incr d word).
Proof.
  intros Hd. unfold incr.
  destruct (Dict.get word d) as [n|] eqn:E; cbn [truthy].
  - destruct (negb (n =? 0)); apply Forall_set; auto; cbn; try lia.
    apply DictFacts.get_Some_in in E. rewrite Forall_forall in Hd.
    specialize (Hd _ E). cbn in Hd. lia.
  - apply Forall_set; auto. cbn. lia.
Qed.

Lemma tally_positive (words : list string) :
  forall d : Dict.t Z,
  Forall (fun kv => 1 <= snd kv) d ->
  Forall (fun kv => 1 <= snd kv) (tally words d).
Proof.
  unfold tally. induction words as [|w words IH]; intros d Hd; cbn; auto.
  apply IH, incr_positive, Hd.
Qed.

Lemma counts_positive_fold (data_obj : corpus) :
  forall st : locals,
  counts_positive (word_counts st) ->
  counts_positive (word_counts (fold_left class_step data_obj st)).
Proof.
  induction data_obj as [|[c docs] l IH]; intros st H; cbn [fold_left]; auto.
  apply IH. cbn [class_step word_counts]. intros k d Hin.
  apply in_set_inv in Hin. destruct Hin as [E|Hin]; [discriminate|].
  apply in_set_inv in Hin. destruct Hin as [E|Hin].
  - inversion E; subst. apply tally_positive. constructor.
  - eapply H, Hin.
Qed.

Lemma counts_positive_trained (data_obj : corpus) :
  counts_positive (word_counts (trained data_obj)).
Proof.
  apply counts_positive_fold. intros k d [].
Qed.

Lemma word_instance_nonneg (d : Dict.t Z) (word : string) :
  Forall (fun kv => 1 <= snd kv) d -> 0 <= word_instance d word.
Proof.
  intros Hd. unfold word_instance.
  destruct (Dict.get word d) as [n|] eqn:E; [|lia].
  apply DictFacts.get_Some_in in E. rewrite Forall_forall in Hd.
  specialize (Hd _ E). cbn in Hd. lia.
Qed.

(** ** Degenerate models *)

Section EmptyModel.
Context {F : Type} {PF : PyFloat F}.

Lemma calculate_probability_no_class (wc : Dict.t wc_value) (vocab : Z)
    (cc : Dict.t Z) (docs : list string) :
  (forall k, In k (Dict.keys wc) -> k = "total") ->
  calculate_probability (F := F) wc vocab cc docs =
  Ok (map (fun _ => Dict.empty) docs).
Proof.
  intros Hall. unfold calculate_probability.
  now rewrite doc_loop_skip by exact Hall.
Qed.

(** C3 (amended). Scoring does not fail for a model without classes:
    it returns one empty score dictionary per document. There is no
    guard for an empty model: for a model trained on a corpus with at
    least one real class whose smoothing denominator
    [word_counter['total'] + vocab] is zero, scoring at least one
    document raises the plain [ZeroDivisionError] of a float division
    (here [0 * 1.0 == 0.0] is assumed of the float operations). *)
Theorem scoring_empty_model_unguarded :
  feqb (fmul (of_int 0) (of_int 1)) (of_int 0) = true ->
  (forall wc vocab cc docs,
     (forall k, In k (Dict.keys wc) -> k = "total") ->
     calculate_probability (F := F) wc vocab cc docs =
     Ok (map (fun _ => Dict.empty) docs)) /\
  (forall data_obj vocab wc cc T doc docs,
     parse_training_data data_obj = Ok (vocab, wc, cc) ->
     (exists k, In k (map fst data_obj) /\ k <> "total") ->
     Dict.get "total" wc = Some (VInt T) ->
     T + vocab = 0 ->
     calculate_probability (F := F) wc vocab cc (doc :: docs) =
     Raise ZeroDivisionError).
Proof.
  intros Hz. split; [exact calculate_probability_no_class|].
  intros data_obj vocab wc cc T doc docs Hp (k0 & Hk0 & Hk0n) HT Hden.
  rewrite parse_training_data_eq in Hp. inversion Hp; subst; clear Hp.
  destruct data_obj as [|item0 rest0] eqn:Ed; [destruct Hk0|].
  rewrite <- Ed in *.
  assert (Hne : data_obj <> []) by (rewrite Ed; discriminate).
  destruct (exists_last Hne) as (init & [cls docs'] & Ei).
  rewrite Ei in HT. rewrite word_total_last in HT. inversion HT; subst T.
  pose proof (count_tokens_nonneg docs') as Hc.
  assert (Hv : vocab_set (trained data_obj) = []).
  { destruct (vocab_set (trained data_obj)); [reflexivity|].
    cbn [length] in Hden. lia. }
  destruct (empty_vocab_no_docs data_obj init_locals Hv) as [_ Hdocs].
  unfold calculate_probability. apply doc_loop_raise.
  apply class_loop_zero_total.
  - exact Hz.
  - rewrite DictFacts.get_set_eq. unfold trained.
    rewrite class_total_fold, Hdocs. reflexivity.
  - intros k Hk Hkn. rewrite DictFacts.get_set_neq by exact Hkn.
    destruct (Dict.get k (class_counts (trained data_obj))) as [n|] eqn:E;
      [eauto|].
    exfalso. apply DictFacts.get_None_notin in E. apply E.
    apply cc_keys_fold. right.
    apply wc_keys_fold in Hk. cbn in Hk. intuition congruence.
  - exists k0. split; [|exact Hk0n]. apply wc_keys_fold. auto.
Qed.

(** C5 (amended). When no class is scored for a document (its score
    dictionary is empty), [predict] does not fail: the label it
    returns for that document is [None]; this is what happens for
    every document when the model has no class. When the model has at
    least one class and scoring succeeds, every returned label is a
    class of the model. *)
Theorem predict_no_class_scored_returns_none :
  select_class (F := F) Dict.empty = None /\
  (forall vocab wc cc docs,
     (forall k, In k (Dict.keys wc) -> k = "total") ->
     predict (F := F) (vocab, wc, cc) docs = Ok (map (fun _ => None) docs)) /\
  (forall vocab wc cc docs labels,
     predict (F := F) (vocab, wc, cc) docs = Ok labels ->
     (exists k, In k (Dict.keys wc) /\ k <> "total") ->
     Forall (fun label =>
               exists c, label = Some c /\ In c (Dict.keys wc) /\ c <> "total")
            labels).
Proof.
  split; [reflexivity|]. split.
  - intros vocab wc cc docs Hall. rewrite predict_eq.
    rewrite calculate_probability_no_class by exact Hall.
    cbn [bind]. now rewrite map_map.
  - intros vocab wc cc docs labels Hp (k0 & Hk0 & Hk0n).
    rewrite predict_eq in Hp.
    destruct (calculate_probability wc vocab cc docs) as [ps|] eqn:E;
      [|discriminate].
    cbn [bind] in Hp. inversion Hp; subst labels; clear Hp.
    destruct (doc_loop_inv _ _ _ _ _ _ E) as (ps' & Eps & Hall).
    cbn [app] in Eps. subst ps'. clear E.
    induction Hall as [|doc p docs ps Hd _ IH]; cbn [map]; constructor; auto.
    pose proof (class_loop_keys _ _ _ _ _ _ _ Hd) as Hkeys.
    assert (Hpne : p <> []).
    { intros ->. destruct (proj2 (Hkeys k0)) as []. right. auto. }
    destruct (select_class_in p Hpne) as (c & Ec & Hc).
    exists c. split; [exact Ec|]. apply Hkeys in Hc.
    destruct Hc as [[]|Hc]. exact Hc.
Qed.
End EmptyModel.

(** ** Scores in exact real arithmetic *)

Lemma feqb_R_true (a b : R) : a = b -> feqb a b = true.
Proof. intros H. cbn. destruct (Req_dec_T a b); [reflexivity|contradiction]. Qed.

Lemma feqb_R_false (a b : R) : a <> b -> feqb a b = false.
Proof. intros H. cbn. destruct (Req_dec_T a b); [contradiction|reflexivity]. Qed.

Lemma fltb_R_true (a b : R) : (a < b)%R -> fltb a b = true.
Proof. intros H. cbn. destruct (Rlt_dec a b); [reflexivity|contradiction]. Qed.

Lemma fltb_R_false (a b : R) : ~ (a < b)%R -> fltb a b = false.
Proof. intros H. cbn. destruct (Rlt_dec a b); [contradiction|reflexivity]. Qed.

Lemma truediv_R (a b : R) : b <> 0%R -> truediv a b = Ok (a / b)%R.
Proof. intros H. unfold truediv. now rewrite feqb_R_false. Qed.

Lemma truediv_R_zero (a b : R) : b = 0%R -> truediv a b = Raise ZeroDivisionError.
Proof. intros H. unfold truediv. now rewrite feqb_R_true. Qed.

Lemma math_log_R (x : R) : (0 < x)%R -> math_log x = Ok (ln x).
Proof.
  intros H. unfold math_log.
  rewrite fltb_R_false, feqb_R_false; cbn; [reflexivity | lra | lra].
Qed.

Lemma smoothed_ratio_pos (count total vocab : Z) :
  0 <= count -> 0 < total + vocab -> (0 < smoothed_ratio count total vocab)%R.
Proof.
  intros Hc Hd. unfold smoothed_ratio. rewrite Rmult_1_r.
  apply Rdiv_lt_0_compat; apply IZR_lt; lia.
Qed.

Lemma smoothed_log_R (count total vocab : Z) :
  0 <= count -> 0 < total + vocab ->
  smoothed_log (F := R) count total vocab =
  Ok (ln (smoothed_ratio count total vocab)).
Proof.
  intros Hc Hd. unfold smoothed_log.
  change (fmul (of_int (total + vocab)) (of_int 1))
    with (IZR (total + vocab) * 1)%R.
  change (of_int (count + 1)) with (IZR (count + 1)).
  rewrite truediv_R.
  - cbn [bind]. apply math_log_R. now apply smoothed_ratio_pos.
  - rewrite Rmult_1_r. apply not_0_IZR. lia.
Qed.

Lemma token_loop_R (wc : Dict.t wc_value) (vocab total : Z) (c : string)
    (d : Dict.t Z) (words : list string) :
  Dict.get "total" wc = Some (VInt total) ->
  0 < total + vocab ->
  Forall (fun kv => 1 <= snd kv) d ->
  forall (probabilities : Dict.t R) (p : R),
  Dict.get c probabilities = Some p ->
  for_each (token_body wc vocab c (VDict d)) words probabilities =
  Ok (Dict.set c (add_terms d total vocab words p) probabilities).
Proof.
  intros Ht Hden Hd. unfold add_terms.
  induction words as [|w words IH]; intros ps p Hp; cbn [for_each fold_left].
  - now rewrite DictFacts.set_get_id.
  - rewrite (token_body_eq _ _ _ _ _ _ _ _ Ht Hp).
    rewrite smoothed_log_R by (auto using word_instance_nonneg).
    cbn [bind]. rewrite (IH _ _ (DictFacts.get_set_eq _ _ _)).
    now rewrite DictFacts.set_set.
Qed.

Lemma class_score_R (wc : Dict.t wc_value) (vocab total : Z) (cc : Dict.t Z)
    (doc c : string) (d : Dict.t Z) (n N : Z) (probabilities : Dict.t R) :
  Dict.get "total" wc = Some (VInt total) ->
  0 < total + vocab ->
  Forall (fun kv => 1 <= snd kv) d ->
  c <> "total" ->
  Dict.get c cc = Some n -> Dict.get "total" cc = Some N ->
  0 < n -> 0 < N ->
  class_score_body wc vocab cc doc probabilities (c, VDict d) =
  Ok (Dict.set c (add_terms d total vocab (split_space doc)
                    (ln (IZR n / (IZR N * 1))))
        probabilities).
Proof.
  intros Ht Hden Hd Hc Hn HN Hn0 HN0. unfold class_score_body.
  apply String.eqb_neq in Hc. rewrite Hc. unfold Dict.getitem.
  rewrite Hn, HN. cbn [bind].
  change (fmul (of_int N) (of_int 1)) with (IZR N * 1)%R.
  change (of_int n) with (IZR n).
  assert (HNr : (0 < IZR N)%R) by (apply IZR_lt; lia).
  assert (Hnr : (0 < IZR n)%R) by (apply IZR_lt; lia).
  rewrite truediv_R by lra. cbn [bind].
  rewrite math_log_R by (apply Rdiv_lt_0_compat; lra). cbn [bind].
  rewrite (token_loop_R _ _ _ _ _ _ Ht Hden Hd _ _ (DictFacts.get_set_eq _ _ _)).
  now rewrite DictFacts.set_set.
Qed.

(** C8. For every trained model whose smoothing denominator
    [word_counter['total'] + vocab] is strictly positive, every class
    table [d] of the model and every token of a test document: the
    count read for the token is not negative (it is [0] for a token the
    class has not seen), the argument
    [(count + 1) / ((total + vocab) * 1.0)] passed to [log] is strictly
    positive, and the loop body adds its logarithm without raising. *)
Theorem smoothed_likelihood_positive
    (data_obj : corpus) (vocab : Z) (wc : Dict.t wc_value) (cc : Dict.t Z)
    (T : Z) :
  parse_training_data data_obj = Ok (vocab, wc, cc) ->
  Dict.get "total" wc = Some (VInt T) ->
  0 < T + vocab ->
  forall (c : string) (d : Dict.t Z) (word_orig : string),
    In (c, VDict d) wc ->
    0 <= word_instance d (lower word_orig) /\
    (Dict.get (lower word_orig) d = None ->
     word_instance d (lower word_orig) = 0) /\
    (0 < smoothed_ratio (word_instance d (lower word_orig)) T vocab)%R /\
    forall (probabilities : Dict.t R) (p : R),
      Dict.get c probabilities = Some p ->
      token_body wc vocab c (VDict d) probabilities word_orig =
      Ok (Dict.set c
            (p + ln (smoothed_ratio (word_instance d (lower word_orig)) T vocab))%R
            probabilities).
Proof.
  intros Hp HT Hden c d word_orig Hin.
  rewrite parse_training_data_eq in Hp. inversion Hp; subst; clear Hp.
  pose proof (counts_positive_trained data_obj c d Hin) as Hd.
  pose proof (word_instance_nonneg d (lower word_orig) Hd) as Hn.
  split; [exact Hn|]. split.
  - intros E. unfold word_instance. now rewrite E.
  - split; [now apply smoothed_ratio_pos|].
    intros probabilities p Hget.
    rewrite (token_body_eq _ _ _ _ _ _ _ _ HT Hget).
    rewrite smoothed_log_R by assumption. reflexivity.
Qed.

(** ** The end-to-end example *)

Lemma parse_spam_corpus : parse_training_data spam_corpus = Ok spam_model.
Proof. vm_compute. reflexivity. Qed.

Lemma class_score_total {F : Type} {PF : PyFloat F} (wc : Dict.t wc_value)
    (vocab : Z) (cc : Dict.t Z) (doc : string) (probabilities : Dict.t F)
    (v : wc_value) :
  class_score_body wc vocab cc doc probabilities ("total", v) = Ok probabilities.
Proof. reflexivity. Qed.

Lemma scores_spam_model :
  calculate_probability (F := R) spam_word_counts 6 spam_class_counts
    ["win money"] =
  Ok [[("spam", spam_score); ("not spam", not_spam_score)]].
Proof.
  assert (Hs : Forall (fun kv : string * Z => 1 <= snd kv) spam_counts)
    by (repeat constructor; cbn; lia).
  assert (Hn : Forall (fun kv : string * Z => 1 <= snd kv) not_spam_counts)
    by (repeat constructor; cbn; lia).
  unfold calculate_probability.
  cbn [for_each]. unfold doc_score_body at 1.
  unfold spam_word_counts at 2. cbn [for_each].
  rewrite (class_score_R spam_word_counts 6 3 spam_class_counts "win money"
             "spam" spam_counts 1 2 Dict.empty eq_refl ltac:(lia) Hs
             ltac:(discriminate) eq_refl eq_refl ltac:(lia) ltac:(lia)).
  cbn [bind]. rewrite class_score_total. cbn [bind].
  rewrite (class_score_R spam_word_counts 6 3 spam_class_counts "win money"
             "not spam" not_spam_counts 1 2 _ eq_refl ltac:(lia) Hn
             ltac:(discriminate) eq_refl eq_refl ltac:(lia) ltac:(lia)).
  cbn [bind app]. reflexivity.
Qed.

Lemma spam_scores_lt : (not_spam_score < spam_score)%R.
Proof.
  unfold spam_score, not_spam_score.
  assert (H : (ln (1 / (9 * 1)) < ln (2 / (9 * 1)))%R)
    by (apply ln_increasing; lra).
  lra.
Qed.

Lemma predict_spam_model :
  predict (F := R) spam_model ["win money"] = Ok [Some "spam"].
Proof.
  unfold spam_model. rewrite predict_eq, scores_spam_model. cbn [bind map].
  unfold select_class. cbn [fold_left select_body fst snd].
  rewrite fltb_R_false; [reflexivity|].
  pose proof spam_scores_lt. lra.
Qed.

(** C1 (evaluation of the code). [naive_bayes_text] never reads its
    parameter [train_data]: its result is the same for any two training
    corpora, and in a module whose globals do not bind the name
    [training_data] it raises [NameError] whatever its arguments are;
    for the example corpus and the document ["win money"] this differs
    from [predict(parse_training_data(train_data), test_data)]. *)
Theorem naive_bayes_text_ignores_train_data :
  (forall (F : Type) (PF : PyFloat F) (globals : Dict.t corpus)
          (train_data train_data' : corpus) (test_data : list string),
     naive_bayes_text (F := F) globals train_data test_data =
     naive_bayes_text globals train_data' test_data) /\
  (forall (F : Type) (PF : PyFloat F) (train_data : corpus)
          (test_data : list string),
     naive_bayes_text (F := F) Dict.empty train_data test_data =
     Raise (NameError "training_data")) /\
  naive_bayes_text (F := R) Dict.empty spam_corpus ["win money"] <>
  (parsed_obj <- parse_training_data spam_corpus ;;
   predict parsed_obj ["win money"]).
Proof.
  split; [reflexivity|]. split; [reflexivity|].
  rewrite parse_spam_corpus. cbn [bind]. rewrite predict_spam_model.
  discriminate.
Qed.

(** C9. Training on [{"spam": ["win money now"], "not spam": ["call me
    back"]}] and scoring the single document ["win money"] gives class
    ["spam"] the score [log(1/2) + log(2/9) + log(2/9)] and class
    ["not spam"] the score [log(1/2) + log(1/9) + log(1/9)]; the score
    of ["spam"] is strictly greater, and [predict] returns the one
    label ["spam"] (scores in exact real arithmetic). *)
Theorem spam_example_predicts_spam :
  (parsed_obj <- parse_training_data spam_corpus ;;
   calculate_probability (F := R) (snd (fst parsed_obj)) (fst (fst parsed_obj))
     (snd parsed_obj) ["win money"]) =
    Ok [[("spam", spam_score); ("not spam", not_spam_score)]] /\
  (not_spam_score < spam_score)%R /\
  (parsed_obj <- parse_training_data spam_corpus ;;
   predict (F := R) parsed_obj ["win money"]) = Ok [Some "spam"].
Proof.
  rewrite parse_spam_corpus. cbn [bind]. split; [|split].
  - exact scores_spam_model.
  - exact spam_scores_lt.
  - exact predict_spam_model.
Qed.

(** ** Evaluations of the code at concrete inputs *)

(** C4 (evaluation of the code). For the corpus [{"spam": ["win money
    now"], "not spam": ["call me"]}] the counts of class ["spam"] sum to
    [3], the table of ["spam"] holds no total of its own, and the only
    total recorded, [word_counts['total']], is [2], the figure of the
    class trained last. *)
Theorem uneven_corpus_total_overwritten :
  exists vocab wc cc d,
    parse_training_data uneven_corpus = Ok (vocab, wc, cc) /\
    Dict.get "spam" wc = Some (VDict d) /\
    sum_values d = 3 /\
    Dict.get "total" d = None /\
    Dict.get "total" wc = Some (VInt 2).
Proof.
  do 4 eexists. split; [vm_compute; reflexivity|].
  split; [reflexivity|]. split; [reflexivity|]. split; reflexivity.
Qed.


(** C3 (counterexample). Scoring with the model trained on the empty
    corpus (no class) does not fail, and scoring with the model trained
    on [{"a": []}], whose smoothing denominator is zero, raises
    [ZeroDivisionError]. *)
Lemma empty_model_scoring_counterexample :
  parse_training_data [] = Ok (0, [], [("total", 0)]) /\
  ~ fails (calculate_probability (F := R) [] 0 [("total", 0)] ["win money"]) /\
  parse_training_data [("a", [])] =
    Ok (0, [("a", VDict []); ("total", VInt 0)], [("a", 0); ("total", 0)]) /\
  calculate_probability (F := R) [("a", VDict []); ("total", VInt 0)] 0
    [("a", 0); ("total", 0)] ["win money"] = Raise ZeroDivisionError.
Proof.
  split; [reflexivity|]. split; [intros [e He]; discriminate He|].
  split; [reflexivity|].
  unfold calculate_probability. cbn [for_each]. unfold doc_score_body at 1.
  cbn [for_each]. unfold class_score_body at 1. cbn [String.eqb].
  change (Dict.getitem "a" [("a", 0); ("total", 0)]) with (Ok (A := Z) 0).
  change (Dict.getitem "total" [("a", 0); ("total", 0)]) with (Ok (A := Z) 0).
  cbn [bind]. rewrite truediv_R_zero; [reflexivity|].
  cbn. lra.
Qed.

(** C5 (counterexample). [predict] with the model trained on the empty
    corpus scores no class for the document and does not fail: it
    returns the label [None]. *)
Lemma predict_empty_model_no_failure :
  (parsed_obj <- parse_training_data [] ;;
   predict (F := R) parsed_obj ["win money"]) = Ok [None] /\
  ~ fails (parsed_obj <- parse_training_data [] ;;
           predict (F := R) parsed_obj ["win money"]).
Proof.
  split; [reflexivity|]. intros [e He]. discriminate He.
Qed.



(** ** The theorems at concrete inputs *)

Lemma R_zero_times_one : feqb (fmul (of_int 0) (of_int 1)) (of_int (F := R) 0) = true.
Proof. apply feqb_R_true. cbn. lra. Qed.

Lemma scoring_empty_model_unguarded_witness :
  calculate_probability (F := R) [] 0 [("total", 0)] ["win money"] =
    Ok [Dict.empty] /\
  calculate_probability (F := R) [("a", VDict []); ("total", VInt 0)] 0
    [("a", 0); ("total", 0)] ["win money"; "call"] = Raise ZeroDivisionError.
Proof.
  destruct (scoring_empty_model_unguarded (F := R) R_zero_times_one) as [H1 H2].
  split.
  - apply (H1 [] 0 [("total", 0)] ["win money"]). intros k [].
  - apply (H2 [("a", [])] 0 _ _ 0 "win money" ["call"]).
    + reflexivity.
    + exists "a". split; [now left | discriminate].
    + reflexivity.
    + reflexivity.
Defined.

Lemma predict_no_class_scored_returns_none_witness :
  predict (F := R) (0, [], [("total", 0)]) ["win money"] = Ok [None] /\
  Forall (fun label =>
            exists c, label = Some c /\ In c (Dict.keys spam_word_counts) /\
                      c <> "total")
         [Some "spam"].
Proof.
  destruct (predict_no_class_scored_returns_none (F := R)) as (_ & H1 & H2).
  split.
  - apply (H1 0 [] [("total", 0)] ["win money"]). intros k [].
  - apply (H2 6 spam_word_counts spam_class_counts ["win money"]).
    + exact predict_spam_model.
    + exists "spam". split; [now left | discriminate].
Defined.

Lemma fltb_R_irrefl (a : R) : fltb a a = false.
Proof. apply fltb_R_false. lra. Qed.

Lemma fltb_R_lt (a b : R) : fltb a b = true -> (a < b)%R.
Proof. cbn. destruct (Rlt_dec a b); [auto|discriminate]. Qed.

Lemma fltb_R_ge (a b : R) : fltb a b = false -> ~ (a < b)%R.
Proof. cbn. destruct (Rlt_dec a b); [discriminate|auto]. Qed.

Lemma fltb_R_trans (a b c : R) :
  fltb a b = true -> fltb b c = true -> fltb a c = true.
Proof.
  intros H1 H2. apply fltb_R_lt in H1, H2. apply fltb_R_true. lra.
Qed.

Lemma fltb_R_negtrans (a b c : R) :
  fltb a b = true -> fltb a c = false -> fltb c b = true.
Proof.
  intros H1 H2. apply fltb_R_lt in H1. apply fltb_R_ge in H2.
  apply fltb_R_true. lra.
Qed.

Lemma select_class_tied_scores : select_class tied_scores = Some "b".
Proof.
  unfold select_class, tied_scores. cbn [fold_left select_body fst snd].
  rewrite (fltb_R_true 1 2) by lra. cbn [fold_left select_body fst snd].
  rewrite (fltb_R_false 2 2) by lra. reflexivity.
Qed.

Lemma select_class_first_greatest_witness :
  first_greatest tied_scores "b".
Proof.
  pose proof (proj1 (proj2 (select_class_first_greatest (F := R)
                              fltb_R_irrefl fltb_R_trans fltb_R_negtrans))
                tied_scores) as H.
  rewrite select_class_tied_scores in H. exact H.
Defined.

Lemma smoothed_likelihood_positive_witness :
  0 <= word_instance not_spam_counts (lower "win") /\
  (Dict.get (lower "win") not_spam_counts = None ->
   word_instance not_spam_counts (lower "win") = 0) /\
  (0 < smoothed_ratio
         (word_instance not_spam_counts (lower "win")) 3 6)%R /\
  forall (probabilities : Dict.t R) (p : R),
    Dict.get "not spam" probabilities = Some p ->
    token_body spam_word_counts 6 "not spam"
      (VDict not_spam_counts) probabilities "win" =
    Ok (Dict.set "not spam"
          (p + ln (smoothed_ratio
                     (word_instance not_spam_counts
                        (lower "win")) 3 6))%R
          probabilities).
Proof.
  apply (smoothed_likelihood_positive spam_corpus 6 spam_word_counts
           spam_class_counts 3).
  - vm_compute. reflexivity.
  - reflexivity.
  - lia.
  - right. right. now left.
Defined.

(** * Further properties of the code *)

(** ** Training *)

Lemma trained_state_eq (data_obj : corpus) :
  for_each class_body data_obj init_locals = Ok (trained data_obj).
Proof. apply for_each_total, class_body_eq. Qed.

(** [parse_training_data] raises for no corpus, and the entry
    [class_counts['total']] of its result is the number of documents of
    the whole corpus (whatever the class labels are). *)
Theorem parse_training_data_total (data_obj : corpus) :
  exists vocab wc cc,
    parse_training_data data_obj = Ok (vocab, wc, cc) /\
    Dict.getitem "total" cc = Ok (total_docs data_obj).
Proof.
  rewrite parse_training_data_eq. do 3 eexists. split; [reflexivity|].
  unfold Dict.getitem. rewrite DictFacts.get_set_eq. unfold trained.
  rewrite class_total_fold. reflexivity.
Qed.

Lemma vocab_add_In (words : list string) :
  forall (vs : set string) (w : string),
  In w (vocab_add words vs) <-> In w vs \/ In w words.
Proof.
  unfold vocab_add. induction words as [|x words IH]; intros vs w; cbn.
  - tauto.
  - rewrite IH, set_add_iff. intuition.
Qed.

Lemma vocab_add_NoDup (words : list string) :
  forall vs : set string, NoDup vs -> NoDup (vocab_add words vs).
Proof.
  unfold vocab_add. induction words as [|x words IH]; intros vs H; cbn; auto.
  apply IH, set_add_nodup, H.
Qed.

Lemma vocab_fold (data_obj : corpus) :
  forall st : locals,
  NoDup (vocab_set st) ->
  NoDup (vocab_set (fold_left class_step data_obj st)) /\
  forall w, In w (vocab_set (fold_left class_step data_obj st)) <->
            In w (vocab_set st) \/ In w (corpus_words data_obj).
Proof.
  induction data_obj as [|[c docs] l IH]; intros st Hnd; cbn [fold_left].
  - split; [exact Hnd|]. cbn. tauto.
  - destruct (IH (class_step st (c, docs))) as [H1 H2].
    + cbn. apply vocab_add_NoDup, Hnd.
    + split; [exact H1|]. intros w. rewrite H2. cbn [class_step vocab_set].
      rewrite vocab_add_In. unfold corpus_words. cbn [flat_map snd].
      rewrite in_app_iff. tauto.
Qed.

Lemma vocab_is_distinct_token_count_aux (data_obj : corpus) :
  exists wc cc,
    parse_training_data data_obj =
    Ok (Z.of_nat (length (nodup string_dec (corpus_words data_obj))), wc, cc).
Proof.
  rewrite parse_training_data_eq.
  assert (E : length (vocab_set (trained data_obj)) =
              length (nodup string_dec (corpus_words data_obj))).
  { destruct (vocab_fold data_obj init_locals (NoDup_nil _)) as [Hnd Hin].
    apply Permutation_length, NoDup_Permutation;
      [exact Hnd | apply NoDup_nodup |].
    intros w. fold (trained data_obj) in Hin. rewrite Hin, nodup_In. cbn. tauto. }
  rewrite E. do 2 eexists. reflexivity.
Qed.

(** For a corpus of ASCII documents, the vocabulary size returned by
    [parse_training_data] is the number of distinct lower-cased tokens
    of the whole corpus. *)
Theorem vocab_is_distinct_token_count (data_obj : corpus) :
  ascii_corpus data_obj = true ->
  exists wc cc,
    parse_training_data data_obj =
    Ok (Z.of_nat (length (nodup string_dec (corpus_words data_obj))), wc, cc).
Proof. intros _. exact (vocab_is_distinct_token_count_aux data_obj). Qed.

Lemma vocab_is_distinct_token_count_witness :
  exists wc cc,
    parse_training_data [("a", ["Win win WIN"; "now win"])] =
    Ok (Z.of_nat (length (nodup string_dec
                            (corpus_words [("a", ["Win win WIN"; "now win"])]))),
        wc, cc).
Proof.
  apply (vocab_is_distinct_token_count [("a", ["Win win WIN"; "now win"])]).
  reflexivity.
Defined.

(** The vocabulary is empty exactly when the corpus has no document:
    every document, even the empty string, yields at least one token. *)
Theorem vocab_zero_iff_no_documents (data_obj : corpus) :
  exists vocab wc cc,
    parse_training_data data_obj = Ok (vocab, wc, cc) /\
    (vocab = 0 <-> Forall (fun item => snd item = []) data_obj).
Proof.
  rewrite parse_training_data_eq. do 3 eexists. split; [reflexivity|].
  split.
  - intros Hv.
    assert (Hvs : vocab_set (trained data_obj) = [])
      by (destruct (vocab_set (trained data_obj)); [reflexivity|discriminate]).
    clear Hv. unfold trained in Hvs. revert Hvs. generalize init_locals.
    induction data_obj as [|[c docs] l IH]; intros st H; constructor.
    + cbn [fold_left] in H. apply empty_vocab_no_docs in H.
      destruct H as [H _]. cbn in H. destruct docs as [|doc docs]; [reflexivity|].
      exfalso. revert H. apply vocab_add_nonempty. right.
      apply class_words_nonempty. discriminate.
    + apply (IH (class_step st (c, docs))). exact H.
  - intros Hall.
    assert (Hw : corpus_words data_obj = []).
    { induction Hall as [|[c docs] l Hd _ IH]; [reflexivity|].
      cbn in Hd. subst docs. exact IH. }
    destruct (vocab_fold data_obj init_locals (NoDup_nil _)) as [_ Hin].
    fold (trained data_obj) in Hin.
    destruct (vocab_set (trained data_obj)) as [|w vs]; [reflexivity|].
    exfalso. destruct (proj1 (Hin w) (or_introl eq_refl)) as [[]|H].
    rewrite Hw in H. destruct H.
Qed.

(** ** The table of one class *)

Lemma get_incr (d : Dict.t Z) (word w : string) :
  Forall (fun kv => 1 <= snd kv) d ->
  Dict.get w (incr d word) =
  if String.eqb w word then Some (word_instance d word + 1) else Dict.get w d.
Proof.
  intros Hd. unfold incr, word_instance.
  destruct (Dict.get word d) as [n|] eqn:E; cbn [truthy].
  - assert (Hn : 1 <= n).
    { apply DictFacts.get_Some_in in E. rewrite Forall_forall in Hd.
      apply (Hd _ E). }
    destruct (Z.eqb_spec n 0) as [->|_]; [lia|]. cbn [negb].
    destruct (String.eqb_spec w word) as [->|Hne].
    + apply DictFacts.get_set_eq.
    + apply DictFacts.get_set_neq, Hne.
  - destruct (String.eqb_spec w word) as [->|Hne].
    + apply DictFacts.get_set_eq.
    + apply DictFacts.get_set_neq, Hne.
Qed.

Lemma word_instance_tally (words : list string) (w : string) :
  forall d : Dict.t Z,
  Forall (fun kv => 1 <= snd kv) d ->
  word_instance (tally words d) w =
  word_instance d w + Z.of_nat (count_occ string_dec words w).
Proof.
  unfold tally. induction words as [|x words IH]; intros d Hd; cbn [fold_left].
  - cbn. lia.
  - rewrite IH by (apply incr_positive, Hd).
    unfold word_instance at 1. rewrite get_incr by exact Hd.
    destruct (String.eqb_spec w x) as [->|Hne].
    + rewrite count_occ_cons_eq by reflexivity. lia.
    + rewrite count_occ_cons_neq by congruence. reflexivity.
Qed.

Lemma sum_values_set (k : string) (v : Z) (d : Dict.t Z) :
  sum_values (Dict.set k v d) = sum_values d - word_instance d k + v.
Proof.
  unfold sum_values, word_instance.
  induction d as [|[k1 v1] d IH]; cbn.
  - lia.
  - destruct (String.eqb k k1); cbn; [lia|]. rewrite IH. lia.
Qed.

Lemma sum_values_tally (words : list string) :
  forall d : Dict.t Z,
  Forall (fun kv => 1 <= snd kv) d ->
  sum_values (tally words d) = sum_values d + Z.of_nat (length words).
Proof.
  unfold tally. induction words as [|x words IH]; intros d Hd; cbn [fold_left].
  - cbn. lia.
  - rewrite IH by (apply incr_positive, Hd).
    assert (E : sum_values (incr d x) = sum_values d + 1).
    { unfold incr. destruct (Dict.get x d) as [n|] eqn:Ex; cbn [truthy].
      - assert (Hn : 1 <= n).
        { apply DictFacts.get_Some_in in Ex. rewrite Forall_forall in Hd.
          apply (Hd _ Ex). }
        destruct (Z.eqb_spec n 0) as [->|_]; [lia|]. cbn [negb].
        rewrite sum_values_set. unfold word_instance. rewrite Ex. lia.
      - rewrite sum_values_set. unfold word_instance. rewrite Ex. lia. }
    rewrite E. cbn [length]. lia.
Qed.

Lemma keys_set_NoDup {V : Type} (k : string) (v : V) (d : Dict.t V) :
  NoDup (Dict.keys d) -> NoDup (Dict.keys (Dict.set k v d)).
Proof.
  induction d as [|[k1 v1] d IH]; cbn; intros Hnd.
  - repeat constructor. intros [].
  - inversion Hnd as [|? ? Hk Hd]; subst.
    destruct (String.eqb_spec k k1) as [->|Hne]; cbn.
    + now constructor.
    + constructor; [|auto]. intros Hin.
      apply (DictFacts.keys_set k v d k1) in Hin.
      destruct Hin as [E|Hin]; [congruence | apply Hk, Hin].
Qed.

Lemma tally_keys_NoDup (words : list string) :
  forall d : Dict.t Z, NoDup (Dict.keys d) -> NoDup (Dict.keys (tally words d)).
Proof.
  unfold tally. induction words as [|x words IH]; intros d Hd; cbn; auto.
  apply IH. unfold incr.
  destruct (truthy (Dict.get x d)); [destruct (Dict.get x d)|];
    auto using keys_set_NoDup.
Qed.

Lemma wc_get_other (data_obj : corpus) (c : string) :
  c <> "total" -> ~ In c (map fst data_obj) ->
  forall st : locals,
  Dict.get c (word_counts (fold_left class_step data_obj st)) =
  Dict.get c (word_counts st).
Proof.
  intros Hc. induction data_obj as [|[c1 docs1] l IH]; intros Hn st;
    cbn [fold_left]; [reflexivity|].
  rewrite IH by (intros H; apply Hn; now right).
  cbn [class_step word_counts].
  rewrite DictFacts.get_set_neq by exact Hc.
  apply DictFacts.get_set_neq. intros ->. apply Hn. now left.
Qed.

Lemma wc_get_class (data_obj : corpus) (c : string) (docs : list string) :
  NoDup (map fst data_obj) -> In (c, docs) data_obj -> c <> "total" ->
  forall st : locals,
  Dict.get c (word_counts (fold_left class_step data_obj st)) =
  Some (VDict (class_table docs)).
Proof.
  intros Hnd Hin Hc.
  induction data_obj as [|[c1 docs1] l IH]; intros st; [destruct Hin|].
  inversion Hnd as [|? ? Hfresh Hl]; subst. cbn [fold_left].
  destruct Hin as [E|Hin].
  - inversion E; subst. rewrite wc_get_other by assumption.
    cbn [class_step word_counts].
    rewrite DictFacts.get_set_neq by exact Hc.
    apply DictFacts.get_set_eq.
  - apply IH; assumption.
Qed.

(** For a corpus with distinct class labels and every class [c] other
    than ['total'] whose documents are ASCII, the table
    [word_counts[c]] returned by [parse_training_data] has distinct
    keys, gives every token its number of occurrences among the
    lower-cased tokens of the documents of [c] (zero when absent), and
    its counts sum to the number of token occurrences of [c]. *)
Theorem class_table_counts_occurrences
    (data_obj : corpus) (c : string) (docs : list string) :
  NoDup (map fst data_obj) -> In (c, docs) data_obj -> c <> "total" ->
  ascii_docs docs = true ->
  exists vocab wc cc d,
    parse_training_data data_obj = Ok (vocab, wc, cc) /\
    Dict.get c wc = Some (VDict d) /\
    NoDup (Dict.keys d) /\
    (forall w, word_instance d w =
               Z.of_nat (count_occ string_dec (class_words docs) w)) /\
    sum_values d = count_tokens docs.
Proof.
  intros Hnd Hin Hc _. rewrite parse_training_data_eq.
  exists (Z.of_nat (length (vocab_set (trained data_obj)))),
    (word_counts (trained data_obj)),
    (Dict.set "total" (class_total (trained data_obj))
       (class_counts (trained data_obj))),
    (class_table docs).
  split; [reflexivity|]. split; [now apply wc_get_class|].
  unfold class_table. split; [|split].
  - apply tally_keys_NoDup. constructor.
  - intros w. rewrite word_instance_tally by constructor. reflexivity.
  - rewrite sum_values_tally by constructor. reflexivity.
Qed.

Lemma class_table_counts_occurrences_witness :
  exists vocab wc cc d,
    parse_training_data uneven_corpus = Ok (vocab, wc, cc) /\
    Dict.get "spam" wc = Some (VDict d) /\
    NoDup (Dict.keys d) /\
    (forall w, word_instance d w =
               Z.of_nat (count_occ string_dec (class_words ["win money now"]) w)) /\
    sum_values d = count_tokens ["win money now"].
Proof.
  apply (class_table_counts_occurrences uneven_corpus "spam" ["win money now"]).
  - repeat constructor; simpl; intuition discriminate.
  - now left.
  - discriminate.
  - reflexivity.
Defined.

(** ** Case folding *)

Lemma lower_ascii_idem (c : ascii) : lower_ascii (lower_ascii c) = lower_ascii c.
Proof. destruct c as [[] [] [] [] [] [] [] []]; reflexivity. Qed.

Lemma lower_ascii_space (c : ascii) :
  Ascii.eqb (lower_ascii c) " " = Ascii.eqb c " ".
Proof. destruct c as [[] [] [] [] [] [] [] []]; reflexivity. Qed.

Lemma lower_idem (s : string) : lower (lower s) = lower s.
Proof.
  induction s as [|c s IH]; cbn; [reflexivity|].
  now rewrite lower_ascii_idem, IH.
Qed.

Lemma split_space_lower (s : string) :
  split_space (lower s) = map lower (split_space s).
Proof.
  induction s as [|c s IH]; cbn [lower split_space]; [reflexivity|].
  rewrite lower_ascii_space, IH.
  destruct (Ascii.eqb c " "); [reflexivity|].
  destruct (split_space s); reflexivity.
Qed.

Lemma doc_words_lower (doc : string) : doc_words (lower doc) = doc_words doc.
Proof.
  unfold doc_words. rewrite split_space_lower, map_map.
  apply map_ext. intros w. apply lower_idem.
Qed.

Lemma class_words_lower (docs : list string) :
  class_words (map lower docs) = class_words docs.
Proof.
  unfold class_words. induction docs as [|doc docs IH]; cbn; [reflexivity|].
  now rewrite doc_words_lower, IH.
Qed.

(** Training is case-insensitive on ASCII text: for a corpus of ASCII
    documents, lower-casing every document leaves the result of
    [parse_training_data] unchanged. *)
Theorem parse_training_data_case_insensitive (data_obj : corpus) :
  ascii_corpus data_obj = true ->
  parse_training_data (lower_corpus data_obj) = parse_training_data data_obj.
Proof.
  intros _. rewrite !parse_training_data_eq.
  enough (E : forall st, fold_left class_step (lower_corpus data_obj) st =
                         fold_left class_step data_obj st)
    by (unfold trained; now rewrite E).
  induction data_obj as [|[c docs] l IH]; intros st; cbn [lower_corpus map fold_left];
    [reflexivity|].
  fold (lower_corpus l). rewrite IH. f_equal.
  cbn [class_step fst snd]. unfold count_tokens.
  now rewrite class_words_lower, length_map.
Qed.

Lemma parse_training_data_case_insensitive_witness :
  parse_training_data (lower_corpus [("a", ["Win Money NOW"]); ("b", ["Call me"])]) =
  parse_training_data [("a", ["Win Money NOW"]); ("b", ["Call me"])].
Proof.
  apply (parse_training_data_case_insensitive
           [("a", ["Win Money NOW"]); ("b", ["Call me"])]).
  reflexivity.
Defined.

(** ** Scoring and prediction, for any float operations *)

Section ScoringLaws.
Context {F : Type} {PF : PyFloat F}.
Variables (word_counter : Dict.t wc_value) (vocab : Z) (class_count : Dict.t Z).

Lemma for_each_map_ext {S A : Type} (body : S -> A -> result S) (f : A -> A)
    (l : list A) :
  (forall s a, body s (f a) = body s a) ->
  forall s, for_each body (map f l) s = for_each body l s.
Proof.
  intros Hb. induction l as [|a l IH]; intros s; cbn; [reflexivity|].
  rewrite Hb. destruct (body s a); cbn; auto.
Qed.

Lemma token_body_lower (doc_cls : string) (v : wc_value)
    (probabilities : Dict.t F) (word_orig : string) :
  token_body word_counter vocab doc_cls v probabilities (lower word_orig) =
  token_body word_counter vocab doc_cls v probabilities word_orig.
Proof. unfold token_body. now rewrite lower_idem. Qed.

Lemma class_score_body_lower (doc : string) (probabilities : Dict.t F)
    (item : string * wc_value) :
  class_score_body word_counter vocab class_count (lower doc) probabilities item =
  class_score_body word_counter vocab class_count doc probabilities item.
Proof.
  destruct item as [c v]. unfold class_score_body.
  destruct (String.eqb c "total"); [reflexivity|].
  destruct (Dict.getitem c class_count); cbn [bind]; [|reflexivity].
  destruct (Dict.getitem "total" class_count); cbn [bind]; [|reflexivity].
  destruct (truediv _ _) as [q|]; cbn [bind]; [|reflexivity].
  destruct (math_log q); cbn [bind]; [|reflexivity].
  rewrite split_space_lower.
  apply for_each_map_ext. intros ps w. apply token_body_lower.
Qed.

Lemma for_each_ext {S A : Type} (body body' : S -> A -> result S) (l : list A) :
  (forall s a, body s a = body' s a) ->
  forall s, for_each body l s = for_each body' l s.
Proof.
  intros Hb. induction l as [|a l IH]; intros s; cbn; [reflexivity|].
  rewrite Hb. destruct (body' s a); cbn; auto.
Qed.

(** Scoring is case-insensitive in ASCII test documents: lower-casing
    them changes neither the scores nor the exception raised. *)
Theorem calculate_probability_case_insensitive (test_documents : list string) :
  ascii_docs test_documents = true ->
  calculate_probability (F := F) word_counter vocab class_count
    (map lower test_documents) =
  calculate_probability word_counter vocab class_count test_documents.
Proof.
  intros _. unfold calculate_probability. apply for_each_map_ext.
  intros rslt doc. unfold doc_score_body.
  rewrite (for_each_ext _ _ word_counter
             (fun ps item => class_score_body_lower doc ps item)).
  reflexivity.
Qed.

Lemma doc_loop_shift (docs : list string) :
  forall rslt : list (Dict.t F),
  for_each (doc_score_body word_counter vocab class_count) docs rslt =
  (r <- for_each (doc_score_body word_counter vocab class_count) docs [] ;;
   Ok (rslt ++ r)).
Proof.
  induction docs as [|doc docs IH]; intros rslt; cbn [for_each].
  - cbn. now rewrite app_nil_r.
  - unfold doc_score_body at 1 3.
    destruct (for_each (class_score_body word_counter vocab class_count doc)
                word_counter Dict.empty) as [p|e]; cbn [bind]; [|reflexivity].
    rewrite (IH (rslt ++ [p])), (IH ([] ++ [p])).
    destruct (for_each _ docs []) as [r|e]; cbn [bind]; [|reflexivity].
    now rewrite <- app_assoc.
Qed.

Lemma calculate_probability_app_eq (docs1 docs2 : list string) :
  calculate_probability (F := F) word_counter vocab class_count (docs1 ++ docs2) =
  (r1 <- calculate_probability word_counter vocab class_count docs1 ;;
   r2 <- calculate_probability word_counter vocab class_count docs2 ;;
   Ok (r1 ++ r2)).
Proof.
  unfold calculate_probability. rewrite for_each_app.
  destruct (for_each _ docs1 []) as [r1|e]; cbn [bind]; [|reflexivity].
  apply doc_loop_shift.
Qed.

(** Documents are scored independently and in order: scoring the
    concatenation of two document lists is scoring the first list, then
    the second, and concatenating the results; an exception raised for
    either list is the exception of the whole call. *)
Theorem calculate_probability_app (docs1 docs2 : list string) :
  calculate_probability (F := F) word_counter vocab class_count (docs1 ++ docs2) =
  (r1 <- calculate_probability word_counter vocab class_count docs1 ;;
   r2 <- calculate_probability word_counter vocab class_count docs2 ;;
   Ok (r1 ++ r2)).
Proof. exact (calculate_probability_app_eq docs1 docs2). Qed.

(** The same holds for [predict]: the labels of a concatenation are
    the labels of the first list followed by those of the second. *)
Theorem predict_app (docs1 docs2 : list string) :
  predict (F := F) (vocab, word_counter, class_count) (docs1 ++ docs2) =
  (l1 <- predict (vocab, word_counter, class_count) docs1 ;;
   l2 <- predict (vocab, word_counter, class_count) docs2 ;;
   Ok (l1 ++ l2)).
Proof.
  rewrite !predict_eq, calculate_probability_app_eq.
  destruct (calculate_probability _ _ _ docs1) as [r1|e]; cbn [bind];
    [|reflexivity].
  destruct (calculate_probability _ _ _ docs2) as [r2|e]; cbn [bind];
    [|reflexivity].
  now rewrite map_app.
Qed.

(** When [predict] returns, it returns exactly one label per test
    document, and when [calculate_probability] returns, one score
    dictionary per test document. *)
Theorem one_result_per_document (test_data : list string) :
  (forall scores,
     calculate_probability (F := F) word_counter vocab class_count test_data =
       Ok scores ->
     length scores = length test_data) /\
  (forall labels,
     predict (F := F) (vocab, word_counter, class_count) test_data = Ok labels ->
     length labels = length test_data).
Proof.
  assert (H : forall scores,
             calculate_probability (F := F) word_counter vocab class_count
               test_data = Ok scores ->
             length scores = length test_data).
  { intros scores E. unfold calculate_probability in E.
    destruct (doc_loop_inv _ _ _ _ _ _ E) as (ps & -> & Hall).
    cbn [app]. symmetry. eapply Forall2_length, Hall. }
  split; [exact H|].
  intros labels E. rewrite predict_eq in E.
  destruct (calculate_probability _ _ _ test_data) as [ps|] eqn:Ec;
    [|discriminate].
  cbn [bind] in E. inversion E. rewrite length_map. now apply H.
Qed.
End ScoringLaws.

Lemma calculate_probability_case_insensitive_witness :
  calculate_probability (F := R) spam_word_counts 6 spam_class_counts
    (map lower ["Win MONEY"; "Call"]) =
  calculate_probability spam_word_counts 6 spam_class_counts ["Win MONEY"; "Call"].
Proof.
  apply (calculate_probability_case_insensitive (F := R) spam_word_counts 6
           spam_class_counts ["Win MONEY"; "Call"]).
  reflexivity.
Defined.

Lemma one_result_per_document_witness :
  (forall scores,
     calculate_probability (F := R) spam_word_counts 6 spam_class_counts
       ["win money"] = Ok scores ->
     length scores = 1%nat) /\
  (forall labels,
     predict (F := R) spam_model ["win money"] = Ok labels ->
     length labels = 1%nat).
Proof.
  exact (one_result_per_document (F := R) spam_word_counts 6 spam_class_counts
           ["win money"]).
Defined.

(** ** The trained model of a well-formed corpus *)

Lemma set_app_l {V : Type} (k : string) (v : V) (d1 d2 : Dict.t V) :
  In k (Dict.keys d1) -> Dict.set k v (d1 ++ d2) = Dict.set k v d1 ++ d2.
Proof.
  induction d1 as [|[k1 v1] d1 IH]; cbn; [tauto|]. intros Hin.
  destruct (String.eqb_spec k k1) as [->|Hne]; [reflexivity|].
  rewrite IH; [reflexivity|]. destruct Hin; [congruence|assumption].
Qed.

Lemma wc_fold_shape (l : corpus) :
  forall st : locals,
  In "total" (Dict.keys (word_counts st)) ->
  NoDup (map fst l) ->
  (forall k, In k (map fst l) -> ~ In k (Dict.keys (word_counts st))) ->
  exists t, word_counts (fold_left class_step l st) =
            Dict.set "total" t (word_counts st) ++ wc_items l.
Proof.
  induction l as [|[c docs] l IH]; intros st Ht Hnd Hfresh; cbn [fold_left].
  - destruct (Dict.get "total" (word_counts st)) as [t|] eqn:E.
    + exists t. rewrite (DictFacts.set_get_id _ _ _ E). cbn. now rewrite app_nil_r.
    + apply DictFacts.get_None_notin in E. contradiction.
  - inversion Hnd as [|? ? Hc Hl]; subst.
    assert (Hcw : ~ In c (Dict.keys (word_counts st)))
      by (apply Hfresh; now left).
    assert (Hw : word_counts (class_step st (c, docs)) =
                 Dict.set "total" (VInt (count_tokens docs)) (word_counts st) ++
                 [(c, VDict (class_table docs))]).
    { cbn [class_step word_counts]. rewrite (DictFacts.set_notin _ _ _ Hcw).
      now rewrite set_app_l. }
    destruct (IH (class_step st (c, docs))) as (t & Et).
    + rewrite Hw. unfold Dict.keys. rewrite map_app, in_app_iff. left.
      apply DictFacts.keys_set. now left.
    + exact Hl.
    + intros k Hk. rewrite Hw. unfold Dict.keys. rewrite map_app, in_app_iff.
      intros [Hin|Hin].
      * apply DictFacts.keys_set in Hin. destruct Hin as [->|Hin].
        -- apply (Hfresh "total"); [now right | exact Ht].
        -- apply (Hfresh k); [now right | exact Hin].
      * cbn in Hin. destruct Hin as [<-|[]]. contradiction.
    + exists t. rewrite Et, Hw.
      rewrite set_app_l by (apply DictFacts.keys_set; now left).
      rewrite DictFacts.set_set, <- app_assoc. reflexivity.
Qed.

Lemma trained_wc_shape (c : string) (docs : list string) (rest : corpus) :
  NoDup (map fst ((c, docs) :: rest)) ->
  ~ In "total" (map fst ((c, docs) :: rest)) ->
  exists t, word_counts (trained ((c, docs) :: rest)) =
            (c, VDict (class_table docs)) :: ("total", t) :: wc_items rest.
Proof.
  intros Hnd Hres. unfold trained. cbn [fold_left].
  assert (Hc : c <> "total") by (intros ->; apply Hres; now left).
  assert (Hw : word_counts (class_step init_locals (c, docs)) =
               [(c, VDict (class_table docs)); ("total", VInt (count_tokens docs))]).
  { cbn [class_step word_counts init_locals]. unfold class_table.
    change (Dict.set c ?v Dict.empty) with [(c, v)]. cbn [Dict.set].
    apply not_eq_sym, String.eqb_neq in Hc. now rewrite Hc. }
  inversion Hnd as [|? ? Hfresh Hl]; subst.
  destruct (wc_fold_shape rest (class_step init_locals (c, docs))) as (t & Et).
  - rewrite Hw. cbn. auto.
  - exact Hl.
  - intros k Hk. rewrite Hw. cbn. intros [<-|[<-|[]]].
    + contradiction.
    + apply Hres. now right.
  - exists t. rewrite Et, Hw. cbn [Dict.set app].
    apply String.eqb_neq in Hc. rewrite String.eqb_sym in Hc. rewrite Hc.
    now rewrite String.eqb_refl.
Qed.

Lemma trained_total_last (data_obj : corpus) :
  data_obj <> [] ->
  Dict.get "total" (word_counts (trained data_obj)) =
  Some (VInt (last_class_tokens data_obj)).
Proof.
  intros Hne. destruct (exists_last Hne) as (init & [cls docs] & ->).
  rewrite word_total_last. unfold last_class_tokens. now rewrite last_last.
Qed.

Lemma trained_cc_get (data_obj : corpus) (c : string) (docs : list string) :
  NoDup (map fst data_obj) -> ~ In "total" (map fst data_obj) ->
  In (c, docs) data_obj ->
  Dict.get c (Dict.set "total" (class_total (trained data_obj))
                (class_counts (trained data_obj))) =
  Some (Z.of_nat (length docs)).
Proof.
  intros Hnd Hres Hin. unfold trained.
  rewrite class_counts_fold by auto.
  change (class_counts init_locals ++ doc_counts data_obj)
    with (doc_counts data_obj).
  rewrite DictFacts.set_notin by (now rewrite doc_counts_keys).
  apply get_app_l. now apply doc_counts_get.
Qed.

(** ** Scores of a trained model in exact real arithmetic *)

Lemma math_log_R_zero (x : R) : x = 0%R -> math_log x = Raise ValueError.
Proof.
  intros ->. unfold math_log. change (of_int 0) with 0%R.
  rewrite (feqb_R_true 0 0) by reflexivity. now rewrite orb_true_r.
Qed.

Lemma class_table_positive (docs : list string) :
  Forall (fun kv => 1 <= snd kv) (class_table docs).
Proof. apply tally_positive. constructor. Qed.

Section TrainedScores.
Variables (wc : Dict.t wc_value) (vocab T : Z) (cc : Dict.t Z) (N : Z).
Hypothesis HT : Dict.get "total" wc = Some (VInt T).
Hypothesis Hden : 0 < T + vocab.
Hypothesis HN : Dict.get "total" cc = Some N.
Hypothesis HNpos : 0 < N.

Lemma class_loop_R_ok (doc : string) (l : corpus) :
  NoDup (map fst l) ->
  (forall c docs, In (c, docs) l ->
     c <> "total" /\ docs <> [] /\ Dict.get c cc = Some (Z.of_nat (length docs))) ->
  forall probabilities : Dict.t R,
  (forall k, In k (map fst l) -> ~ In k (Dict.keys probabilities)) ->
  for_each (class_score_body wc vocab cc doc) (wc_items l) probabilities =
  Ok (probabilities ++ scores_of T vocab N l doc).
Proof.
  induction l as [|[c docs] l IH]; intros Hnd Hl ps Hfresh.
  - cbn. now rewrite app_nil_r.
  - inversion Hnd as [|? ? Hc Hnd']; subst.
    destruct (Hl c docs (or_introl eq_refl)) as (Hct & Hdocs & Hget).
    cbn [wc_items map for_each fst snd].
    rewrite (class_score_R wc vocab T cc doc c (class_table docs)
               (Z.of_nat (length docs)) N ps HT Hden
               (class_table_positive docs) Hct Hget HN);
      [| destruct docs; [congruence | cbn; lia] | exact HNpos].
    cbn [bind]. fold (wc_items l).
    rewrite DictFacts.set_notin by (apply Hfresh; now left).
    rewrite IH.
    + cbn [scores_of map fst snd]. rewrite <- app_assoc. reflexivity.
    + exact Hnd'.
    + intros c' docs' Hin. apply Hl. now right.
    + intros k Hk. unfold Dict.keys. rewrite map_app, in_app_iff.
      intros [Hin|Hin].
      * apply (Hfresh k); [now right | exact Hin].
      * cbn in Hin. destruct Hin as [<-|[]]. contradiction.
Qed.

Lemma class_loop_R_raise (doc : string) (items : Dict.t wc_value) :
  (forall c v, In (c, v) items -> c <> "total" ->
     exists d n, v = VDict d /\ Forall (fun kv => 1 <= snd kv) d /\
                 Dict.get c cc = Some n /\ 0 <= n) ->
  (exists c v, In (c, v) items /\ c <> "total" /\ Dict.get c cc = Some 0) ->
  forall probabilities : Dict.t R,
  for_each (class_score_body wc vocab cc doc) items probabilities =
  Raise ValueError.
Proof.
  induction items as [|[c v] items IH]; intros Hall Hex ps.
  - destruct Hex as (c & v & [] & _).
  - cbn [for_each].
    assert (Htail : forall c' v', In (c', v') items -> c' <> "total" ->
              exists d n, v' = VDict d /\ Forall (fun kv => 1 <= snd kv) d /\
                          Dict.get c' cc = Some n /\ 0 <= n)
      by (intros c' v' Hin; apply Hall; now right).
    destruct (String.eqb_spec c "total") as [->|Hc].
    + rewrite class_score_total. cbn [bind]. apply IH; [exact Htail|].
      destruct Hex as (c' & v' & [E|Hin] & Hne & H0); [congruence|eauto].
    + destruct (Hall c v (or_introl eq_refl) Hc) as (d & n & -> & Hd & Hn & Hn0).
      destruct (Z.eq_dec n 0) as [->|Hnz].
      * unfold class_score_body. apply String.eqb_neq in Hc. rewrite Hc.
        unfold Dict.getitem. rewrite Hn, HN. cbn [bind].
        change (fmul (of_int N) (of_int 1)) with (IZR N * 1)%R.
        change (of_int 0) with 0%R.
        assert (HNr : (0 < IZR N)%R) by (apply IZR_lt; lia).
        rewrite truediv_R by lra. cbn [bind].
        rewrite math_log_R_zero by (unfold Rdiv; apply Rmult_0_l).
        reflexivity.
      * rewrite (class_score_R wc vocab T cc doc c d n N ps HT Hden Hd Hc Hn HN);
          [| lia | exact HNpos].
        cbn [bind]. apply IH; [exact Htail|].
        destruct Hex as (c' & v' & [E|Hin] & Hne & H0); [|eauto].
        inversion E; subst. rewrite Hn in H0. congruence.
Qed.
End TrainedScores.

Lemma total_docs_nonneg (data_obj : corpus) : 0 <= total_docs data_obj.
Proof.
  unfold total_docs. induction data_obj as [|item l IH]; cbn; lia.
Qed.

Lemma total_docs_pos (data_obj : corpus) (c : string) (docs : list string) :
  In (c, docs) data_obj -> docs <> [] -> 0 < total_docs data_obj.
Proof.
  intros Hin Hne. induction data_obj as [|item l IH]; [destruct Hin|].
  unfold total_docs in *. cbn [map fold_right].
  destruct Hin as [->|Hin].
  - cbn [snd]. pose proof (total_docs_nonneg l) as H. unfold total_docs in H.
    destruct docs; [congruence | cbn [length]; lia].
  - specialize (IH Hin). lia.
Qed.

Lemma trained_vocab_pos (data_obj : corpus) :
  0 < total_docs data_obj -> 0 < Z.of_nat (length (vocab_set (trained data_obj))).
Proof.
  intros Hpos. destruct (vocab_set (trained data_obj)) eqn:E; [|cbn; lia].
  apply empty_vocab_no_docs in E. lia.
Qed.

Lemma doc_loop_ok {F : Type} {PF : PyFloat F} (wc : Dict.t wc_value)
    (vocab : Z) (cc : Dict.t Z) (f : string -> Dict.t F) (docs : list string) :
  (forall doc, for_each (class_score_body wc vocab cc doc) wc Dict.empty =
               Ok (f doc)) ->
  calculate_probability wc vocab cc docs = Ok (map f docs).
Proof.
  intros Hf. unfold calculate_probability.
  enough (H : forall rslt,
            for_each (doc_score_body wc vocab cc) docs rslt =
            Ok (rslt ++ map f docs)) by apply (H []).
  induction docs as [|doc docs IH]; intros rslt; cbn [for_each map].
  - now rewrite app_nil_r.
  - unfold doc_score_body at 1. rewrite Hf. cbn [bind].
    rewrite IH, <- app_assoc. reflexivity.
Qed.

Lemma calculate_probability_trained_eq
    (data_obj : corpus) (vocab : Z) (wc : Dict.t wc_value) (cc : Dict.t Z)
    (test_documents : list string) :
  well_formed data_obj ->
  parse_training_data data_obj = Ok (vocab, wc, cc) ->
  calculate_probability (F := R) wc vocab cc test_documents =
  Ok (map (scores_of (last_class_tokens data_obj) vocab (total_docs data_obj)
             data_obj) test_documents).
Proof.
  intros (Hnd & Hres & Hdocs) Hp.
  rewrite parse_training_data_eq in Hp. inversion Hp; subst; clear Hp.
  apply doc_loop_ok. intros doc.
  destruct data_obj as [|[c docs] rest] eqn:Ed; [reflexivity|].
  rewrite <- Ed in *.
  assert (Hne : data_obj <> []) by (rewrite Ed; discriminate).
  assert (Hin0 : In (c, docs) data_obj) by (rewrite Ed; now left).
  assert (Hd0 : docs <> []).
  { rewrite Forall_forall in Hdocs. apply (Hdocs _ Hin0). }
  pose proof (total_docs_pos _ _ _ Hin0 Hd0) as HNpos.
  pose proof (trained_vocab_pos _ HNpos) as Hv.
  pose proof (trained_total_last _ Hne) as HT.
  assert (Hden : 0 < last_class_tokens data_obj +
                     Z.of_nat (length (vocab_set (trained data_obj)))).
  { pose proof (count_tokens_nonneg (snd (last data_obj ("", [])))).
    unfold last_class_tokens. lia. }
  assert (HN : Dict.get "total"
                 (Dict.set "total" (class_total (trained data_obj))
                    (class_counts (trained data_obj))) =
               Some (total_docs data_obj)).
  { rewrite DictFacts.get_set_eq. unfold trained.
    now rewrite class_total_fold. }
  assert (Hcls : forall c' docs', In (c', docs') data_obj ->
            c' <> "total" /\ docs' <> [] /\
            Dict.get c' (Dict.set "total" (class_total (trained data_obj))
                           (class_counts (trained data_obj))) =
            Some (Z.of_nat (length docs'))).
  { intros c' docs' Hin. split; [|split].
    - intros ->. apply Hres. change "total" with (fst ("total", docs')).
      now apply in_map.
    - rewrite Forall_forall in Hdocs. apply (Hdocs _ Hin).
    - now apply trained_cc_get. }
  assert (Hshape : exists t, word_counts (trained data_obj) =
            (c, VDict (class_table docs)) :: ("total", t) :: wc_items rest)
    by (rewrite Ed in *; now apply trained_wc_shape).
  destruct Hshape as (t & Hshape).
  rewrite Hshape at 2. cbn [for_each].
  destruct (Hcls c docs Hin0) as (Hc & _ & Hget).
  rewrite (class_score_R _ _ _ _ doc c (class_table docs)
             (Z.of_nat (length docs)) (total_docs data_obj) Dict.empty
             HT Hden (class_table_positive docs) Hc Hget HN);
    [| destruct docs; [congruence | cbn; lia] | exact HNpos].
  cbn [bind]. rewrite class_score_total. cbn [bind].
  change (Dict.set c ?x Dict.empty) with [(c, x)].
  rewrite Ed in Hnd. cbn [map fst] in Hnd.
  apply NoDup_cons_iff in Hnd. destruct Hnd as [Hfresh Hnd'].
  rewrite (class_loop_R_ok _ _ _ _ _ HT Hden HN HNpos doc rest Hnd').
  - rewrite Ed. reflexivity.
  - intros c' docs' Hin. apply Hcls. rewrite Ed. now right.
  - intros k Hk. cbn. intros [<-|[]]. contradiction.
Qed.

(** For a well-formed corpus (distinct class labels, none of them
    ['total'], every class with at least one document) of ASCII
    documents and ASCII test documents, scoring with the trained model
    never raises: for every document it returns, in the order of the
    classes in the corpus, the log of the prior of the class plus one
    smoothed term per token (exact arithmetic). *)
Theorem calculate_probability_trained
    (data_obj : corpus) (vocab : Z) (wc : Dict.t wc_value) (cc : Dict.t Z)
    (test_documents : list string) :
  well_formed data_obj ->
  ascii_corpus data_obj = true -> ascii_docs test_documents = true ->
  parse_training_data data_obj = Ok (vocab, wc, cc) ->
  calculate_probability (F := R) wc vocab cc test_documents =
  Ok (map (scores_of (last_class_tokens data_obj) vocab (total_docs data_obj)
             data_obj) test_documents).
Proof.
  intros Hwf _ _.
  exact (calculate_probability_trained_eq data_obj vocab wc cc test_documents Hwf).
Qed.

Lemma calculate_probability_trained_witness :
  calculate_probability (F := R) spam_word_counts 6 spam_class_counts
    ["win money"; "call"] =
  Ok (map (scores_of (last_class_tokens spam_corpus) 6 (total_docs spam_corpus)
             spam_corpus) ["win money"; "call"]).
Proof.
  apply (calculate_probability_trained spam_corpus 6 spam_word_counts
           spam_class_counts).
  - split; [|split].
    + repeat constructor; simpl; intuition discriminate.
    + simpl. intuition discriminate.
    + repeat constructor; discriminate.
  - reflexivity.
  - reflexivity.
  - vm_compute. reflexivity.
Defined.

(** ** Predictions as an integer arg-max *)

Lemma ln_div_pos (x y : R) :
  (0 < x)%R -> (0 < y)%R -> (ln (x / y) = ln x - ln y)%R.
Proof.
  intros Hx Hy. unfold Rdiv.
  rewrite ln_mult by (auto using Rinv_0_lt_compat).
  rewrite ln_Rinv by exact Hy. lra.
Qed.

Lemma add_terms_weight (d : Dict.t Z) (T vocab : Z) (words : list string) :
  Forall (fun kv => 1 <= snd kv) d -> 0 < T + vocab ->
  forall (a : Z) (K : R), 0 < a ->
  add_terms d T vocab words (ln (IZR a) - K)%R =
  (ln (IZR (token_weight d words a)) - score_offset T vocab words K)%R.
Proof.
  intros Hd Hden. unfold add_terms, score_offset, token_weight.
  induction words as [|w words IH]; intros a K Ha; cbn [fold_left];
    [reflexivity|].
  pose proof (word_instance_nonneg d (lower w) Hd) as Hk.
  rewrite <- IH by nia. f_equal.
  unfold smoothed_ratio.
  assert (Ha' : (0 < IZR a)%R) by (apply IZR_lt; lia).
  assert (Hk' : (0 < IZR (word_instance d (lower w) + 1))%R)
    by (apply IZR_lt; lia).
  assert (HD : (0 < IZR (T + vocab) * 1)%R)
    by (rewrite Rmult_1_r; apply IZR_lt; lia).
  rewrite ln_div_pos by assumption.
  rewrite mult_IZR, (ln_mult (IZR a)) by assumption. lra.
Qed.

Lemma fold_weight_pos (d : Dict.t Z) (words : list string) :
  Forall (fun kv => 1 <= snd kv) d ->
  forall a : Z, 0 < a -> 0 < token_weight d words a.
Proof.
  intros Hd. unfold token_weight. induction words as [|w words IH]; intros a Ha; cbn [fold_left];
    [exact Ha|].
  apply IH. pose proof (word_instance_nonneg d (lower w) Hd). nia.
Qed.

Lemma class_weight_pos (doc : string) (docs : list string) :
  docs <> [] -> 0 < class_weight doc docs.
Proof.
  intros Hne. apply fold_weight_pos; [apply class_table_positive|].
  destruct docs; [congruence | cbn; lia].
Qed.

Lemma class_score_weight (T vocab N : Z) (doc : string) (docs : list string) :
  docs <> [] -> 0 < N -> 0 < T + vocab ->
  class_score T vocab N doc docs =
  (ln (IZR (class_weight doc docs)) -
   score_offset T vocab (split_space doc) (ln (IZR N * 1)))%R.
Proof.
  intros Hne HN Hden. unfold class_score, class_weight.
  assert (Hn : 0 < Z.of_nat (length docs))
    by (destruct docs; [congruence | cbn; lia]).
  rewrite <- add_terms_weight by (auto using class_table_positive).
  f_equal. apply ln_div_pos.
  - apply IZR_lt. lia.
  - rewrite Rmult_1_r. apply IZR_lt. lia.
Qed.

Lemma fltb_ln_shift (a b : Z) (C : R) :
  0 < a -> 0 < b ->
  fltb (ln (IZR a) - C)%R (ln (IZR b) - C)%R = (a <? b).
Proof.
  intros Ha Hb.
  assert (Ha' : (0 < IZR a)%R) by (apply IZR_lt; lia).
  assert (Hb' : (0 < IZR b)%R) by (apply IZR_lt; lia).
  destruct (Z.ltb_spec a b) as [Hlt|Hge].
  - apply fltb_R_true.
    pose proof (ln_increasing _ _ Ha' (IZR_lt _ _ Hlt)). lra.
  - apply fltb_R_false. intros Hlt.
    assert (H : (ln (IZR a) < ln (IZR b))%R) by lra.
    apply ln_lt_inv in H; [|assumption|assumption].
    apply lt_IZR in H. lia.
Qed.

Lemma select_scores_weights (C : R) (l : Dict.t Z) :
  Forall (fun cw => 0 < snd cw) l ->
  select_class (map (fun cw => (fst cw, (ln (IZR (snd cw)) - C)%R)) l) =
  argmax_weight l.
Proof.
  unfold select_class, argmax_weight.
  destruct l as [|[c w] l]; [reflexivity|]. intros Hall.
  inversion Hall as [|? ? Hw Hl]; subst. cbn [snd] in Hw. clear Hall.
  cbn [map fold_left select_body argmax_body fst snd].
  revert c w Hw. induction Hl as [|[c' w'] l Hw' Hl IH]; intros c w Hw;
    [reflexivity|].
  cbn [snd] in Hw'. cbn [map fold_left]. unfold select_body at 2.
  unfold argmax_body at 2. cbn [fst snd].
  rewrite fltb_ln_shift by assumption.
  destruct (w <? w'); apply IH; assumption.
Qed.

Lemma scores_of_weights (T vocab N : Z) (data_obj : corpus) (doc : string) :
  Forall (fun item => snd item <> []) data_obj -> 0 < N -> 0 < T + vocab ->
  scores_of T vocab N data_obj doc =
  map (fun cw => (fst cw,
                  (ln (IZR (snd cw)) -
                   score_offset T vocab (split_space doc) (ln (IZR N * 1)))%R))
      (weights_of data_obj doc).
Proof.
  intros Hdocs HN Hden. unfold scores_of, weights_of. rewrite map_map.
  apply map_ext_in. intros [c docs] Hin. cbn [fst snd].
  rewrite Forall_forall in Hdocs.
  now rewrite (class_score_weight T vocab N doc docs (Hdocs _ Hin)).
Qed.

Lemma argmax_fold_first_max (rest : Dict.t Z) :
  forall (pre : Dict.t Z) (i : nat) (w : Z) (c : string),
  nth_error pre i = Some (c, w) ->
  (forall j c' w', nth_error pre j = Some (c', w') -> w' <= w) ->
  (forall j c' w', (j < i)%nat -> nth_error pre j = Some (c', w') -> w' < w) ->
  exists c2, snd (fold_left argmax_body rest (Some w, Some c)) = Some c2 /\
             first_max (pre ++ rest) c2.
Proof.
  induction rest as [|[c1 w1] rest IH]; intros pre i w c Hi Hmax Hfirst.
  - exists c. split; [reflexivity|]. rewrite app_nil_r. exists i, w. auto.
  - cbn [fold_left]. unfold argmax_body at 2. cbn [fst snd].
    assert (Hlt : (i < length pre)%nat) by (apply nth_error_Some; congruence).
    replace (pre ++ (c1, w1) :: rest) with ((pre ++ [(c1, w1)]) ++ rest)
      by (now rewrite <- app_assoc).
    destruct (Z.ltb_spec w w1) as [Hww|Hww].
    + apply (IH (pre ++ [(c1, w1)]) (length pre)).
      * rewrite nth_error_app2, Nat.sub_diag by lia. reflexivity.
      * intros j c' w' Hj.
        destruct (Nat.lt_ge_cases j (length pre)) as [Hjl|Hjl].
        -- rewrite nth_error_app1 in Hj by exact Hjl.
           specialize (Hmax _ _ _ Hj). lia.
        -- rewrite nth_error_app2 in Hj by exact Hjl.
           destruct (j - length pre)%nat as [|n]; cbn in Hj.
           ++ inversion Hj; subst. lia.
           ++ destruct n; discriminate.
      * intros j c' w' Hjl Hj. rewrite nth_error_app1 in Hj by exact Hjl.
        specialize (Hmax _ _ _ Hj). lia.
    + apply (IH (pre ++ [(c1, w1)]) i).
      * rewrite nth_error_app1 by exact Hlt. exact Hi.
      * intros j c' w' Hj.
        destruct (Nat.lt_ge_cases j (length pre)) as [Hjl|Hjl].
        -- rewrite nth_error_app1 in Hj by exact Hjl. eauto.
        -- rewrite nth_error_app2 in Hj by exact Hjl.
           destruct (j - length pre)%nat as [|n]; cbn in Hj.
           ++ inversion Hj; subst. exact Hww.
           ++ destruct n; discriminate.
      * intros j c' w' Hji Hj. rewrite nth_error_app1 in Hj by lia. eauto.
Qed.

Lemma argmax_weight_first_max (ws : Dict.t Z) :
  match argmax_weight ws with
  | Some c => first_max ws c
  | None => ws = []
  end.
Proof.
  destruct ws as [|[c w] l]; [reflexivity|].
  unfold argmax_weight. cbn [fold_left argmax_body fst snd].
  destruct (argmax_fold_first_max l [(c, w)] 0 w c) as (c2 & E & H).
  - reflexivity.
  - intros [|[|j]] c' w' Hj; cbn in Hj; try discriminate.
    inversion Hj; subst. lia.
  - intros j c' w' Hj. lia.
  - rewrite E. exact H.
Qed.

Lemma predict_trained_argmax_eq
    (data_obj : corpus) (parsed_obj : model) (test_data : list string) :
  well_formed data_obj ->
  parse_training_data data_obj = Ok parsed_obj ->
  predict (F := R) parsed_obj test_data =
    Ok (map (fun doc => argmax_weight (weights_of data_obj doc)) test_data) /\
  forall doc,
    match argmax_weight (weights_of data_obj doc) with
    | Some c => first_max (weights_of data_obj doc) c
    | None => data_obj = []
    end.
Proof.
  intros Hwf Hp. split.
  - destruct parsed_obj as [[vocab wc] cc]. rewrite predict_eq.
    rewrite (calculate_probability_trained_eq data_obj vocab wc cc test_data Hwf Hp).
    cbn [bind]. f_equal. rewrite map_map. apply map_ext. intros doc.
    destruct Hwf as (Hnd & Hres & Hdocs).
    destruct data_obj as [|[c docs] rest] eqn:Ed; [reflexivity|].
    rewrite <- Ed in *.
    assert (Hin0 : In (c, docs) data_obj) by (rewrite Ed; now left).
    assert (Hd0 : docs <> []).
    { rewrite Forall_forall in Hdocs. apply (Hdocs _ Hin0). }
    pose proof (total_docs_pos _ _ _ Hin0 Hd0) as HNpos.
    rewrite parse_training_data_eq in Hp. inversion Hp; subst vocab.
    pose proof (trained_vocab_pos _ HNpos) as Hv.
    assert (Hden : 0 < last_class_tokens data_obj +
                       Z.of_nat (length (vocab_set (trained data_obj)))).
    { pose proof (count_tokens_nonneg (snd (last data_obj ("", [])))).
      unfold last_class_tokens. lia. }
    rewrite scores_of_weights by assumption.
    apply select_scores_weights.
    unfold weights_of. apply Forall_map, Forall_forall. intros [c' docs'] Hin.
    cbn [snd]. apply class_weight_pos.
    rewrite Forall_forall in Hdocs. apply (Hdocs _ Hin).
  - intros doc. pose proof (argmax_weight_first_max (weights_of data_obj doc)) as H.
    destruct (argmax_weight (weights_of data_obj doc)); [exact H|].
    destruct data_obj; [reflexivity|discriminate].
Qed.


Lemma spam_corpus_well_formed : well_formed spam_corpus.
Proof.
  split; [|split].
  - repeat constructor; simpl; intuition discriminate.
  - simpl. intuition discriminate.
  - repeat constructor; discriminate.
Qed.







Lemma token_weight_unseen (d : Dict.t Z) (words : list string) (a : Z) :
  (forall w, In w words -> word_instance d (lower w) = 0) ->
  token_weight d words a = a.
Proof.
  unfold token_weight. revert a.
  induction words as [|w words IH]; intros a H; cbn [fold_left]; [reflexivity|].
  rewrite (H w (or_introl eq_refl)), IH by (intros w' Hw'; apply H; now right).
  lia.
Qed.

(** For a well-formed corpus of ASCII documents and an ASCII document
    none of whose tokens occurs in any class, the label is decided by
    the priors alone: it is the first class of the corpus with the
    largest number of documents. *)
Theorem predict_unseen_tokens
    (data_obj : corpus) (parsed_obj : model) (doc : string) :
  well_formed data_obj ->
  ascii_corpus data_obj = true -> is_ascii doc = true ->
  parse_training_data data_obj = Ok parsed_obj ->
  (forall c docs w, In (c, docs) data_obj -> In w (doc_words doc) ->
                    ~ In w (class_words docs)) ->
  predict (F := R) parsed_obj [doc] = Ok [argmax_weight (doc_counts data_obj)] /\
  match argmax_weight (doc_counts data_obj) with
  | Some c => first_max (doc_counts data_obj) c
  | None => data_obj = []
  end.
Proof.
  intros Hwf _ _ Hp Hunseen.
  assert (E : weights_of data_obj doc = doc_counts data_obj).
  { unfold weights_of, doc_counts. apply map_ext_in. intros [c docs] Hin.
    cbn [fst snd]. f_equal. unfold class_weight.
    apply token_weight_unseen. intros w Hw. unfold class_table.
    rewrite word_instance_tally by constructor. cbn.
    assert (Hn : ~ In (lower w) (class_words docs)).
    { apply (Hunseen c docs); [exact Hin|]. unfold doc_words. now apply in_map. }
    apply (count_occ_not_In string_dec) in Hn. rewrite Hn. reflexivity. }
  destruct (predict_trained_argmax_eq data_obj parsed_obj [doc] Hwf Hp) as [H1 H2].
  rewrite H1. cbn [map]. rewrite E. split; [reflexivity|].
  specialize (H2 doc). rewrite E in H2. exact H2.
Qed.

Lemma predict_unseen_tokens_witness :
  predict (F := R) spam_model ["zzz qqq"] = Ok [argmax_weight (doc_counts spam_corpus)] /\
  match argmax_weight (doc_counts spam_corpus) with
  | Some c => first_max (doc_counts spam_corpus) c
  | None => spam_corpus = []
  end.
Proof.
  apply (predict_unseen_tokens spam_corpus spam_model "zzz qqq").
  - exact spam_corpus_well_formed.
  - reflexivity.
  - reflexivity.
  - vm_compute. reflexivity.
  - intros c docs w [E|[E|[]]] [<-|[<-|[]]]; inversion E; subst; cbn;
      intuition discriminate.
Defined.

(** ** A class without documents, and models built by hand *)

Lemma trained_wc_in (data_obj : corpus) (c : string) (v : wc_value) :
  NoDup (map fst data_obj) -> ~ In "total" (map fst data_obj) ->
  (In (c, v) (word_counts (trained data_obj)) /\ c <> "total" <->
   exists docs, In (c, docs) data_obj /\ v = VDict (class_table docs)).
Proof.
  intros Hnd Hres. destruct data_obj as [|[c1 docs1] rest].
  - cbn. split; [tauto | intros (docs & [] & _)].
  - destruct (trained_wc_shape c1 docs1 rest Hnd Hres) as (t & ->).
    assert (Hitems : In (c, v) (wc_items rest) <->
              exists docs, In (c, docs) rest /\ v = VDict (class_table docs)).
    { unfold wc_items. rewrite in_map_iff. split.
      - intros ([c' docs'] & E & Hin). inversion E; subst. eauto.
      - intros (docs & Hin & ->). exists (c, docs). auto. }
    cbn [In]. split.
    + intros [[E|[E|Hin]] Hc].
      * inversion E; subst. exists docs1. auto.
      * inversion E; subst. congruence.
      * apply Hitems in Hin. destruct Hin as (docs & Hin & ->). eauto.
    + intros (docs & [E|Hin] & ->).
      * inversion E; subst. split; [now left|].
        intros ->. apply Hres. now left.
      * split; [right; right; apply Hitems; eauto|].
        intros ->. apply Hres. right.
        change "total" with (fst ("total", docs)). now apply in_map.
Qed.

(** A class with an empty list of documents, in a corpus that has
    documents in another class, makes scoring of any document raise
    [ValueError]: the prior of that class is [0] and [math.log(0.0)]
    is a domain error (exact arithmetic). *)
Theorem class_without_documents_raises
    (data_obj : corpus) (vocab : Z) (wc : Dict.t wc_value) (cc : Dict.t Z)
    (doc : string) (docs : list string) :
  NoDup (map fst data_obj) -> ~ In "total" (map fst data_obj) ->
  parse_training_data data_obj = Ok (vocab, wc, cc) ->
  (exists c, In (c, []) data_obj) ->
  (exists c docs', In (c, docs') data_obj /\ docs' <> []) ->
  calculate_probability (F := R) wc vocab cc (doc :: docs) = Raise ValueError /\
  predict (F := R) (vocab, wc, cc) (doc :: docs) = Raise ValueError.
Proof.
  intros Hnd Hres Hp (c0 & Hc0) (c1 & docs1 & Hin1 & Hne1).
  rewrite parse_training_data_eq in Hp. inversion Hp; subst; clear Hp.
  assert (Hne : data_obj <> []) by (intros ->; destruct Hc0).
  pose proof (total_docs_pos _ _ _ Hin1 Hne1) as HNpos.
  pose proof (trained_vocab_pos _ HNpos) as Hv.
  pose proof (trained_total_last _ Hne) as HT.
  assert (Hden : 0 < last_class_tokens data_obj +
                     Z.of_nat (length (vocab_set (trained data_obj)))).
  { pose proof (count_tokens_nonneg (snd (last data_obj ("", [])))).
    unfold last_class_tokens. lia. }
  assert (HN : Dict.get "total"
                 (Dict.set "total" (class_total (trained data_obj))
                    (class_counts (trained data_obj))) =
               Some (total_docs data_obj)).
  { rewrite DictFacts.get_set_eq. unfold trained. now rewrite class_total_fold. }
  assert (E : calculate_probability (F := R) (word_counts (trained data_obj))
                (Z.of_nat (length (vocab_set (trained data_obj))))
                (Dict.set "total" (class_total (trained data_obj))
                   (class_counts (trained data_obj))) (doc :: docs) =
              Raise ValueError).
  { unfold calculate_probability. apply doc_loop_raise.
    apply (class_loop_R_raise _ _ _ _ _ HT Hden HN HNpos).
    - intros c v Hin Hc.
      destruct (proj1 (trained_wc_in data_obj c v Hnd Hres) (conj Hin Hc))
        as (docs' & Hin' & ->).
      exists (class_table docs'), (Z.of_nat (length docs')).
      split; [reflexivity|]. split; [apply class_table_positive|].
      split; [now apply trained_cc_get | lia].
    - exists c0, (VDict (class_table [])).
      destruct (proj2 (trained_wc_in data_obj c0 (VDict (class_table [])) Hnd Hres))
        as [Hin Hc]; [eauto|].
      split; [exact Hin|]. split; [exact Hc|].
      now apply (trained_cc_get data_obj c0 []). }
  split; [exact E|]. rewrite predict_eq, E. reflexivity.
Qed.

Lemma class_without_documents_raises_witness :
  calculate_probability (F := R)
    [("a", VDict []); ("total", VInt 1); ("b", VDict [("x", 1)])] 1
    [("a", 0); ("b", 1); ("total", 1)] ["x"] = Raise ValueError /\
  predict (F := R)
    (1, [("a", VDict []); ("total", VInt 1); ("b", VDict [("x", 1)])],
     [("a", 0); ("b", 1); ("total", 1)]) ["x"] = Raise ValueError.
Proof.
  apply (class_without_documents_raises [("a", []); ("b", ["x"])]).
  - repeat constructor; simpl; intuition discriminate.
  - simpl. intuition discriminate.
  - vm_compute. reflexivity.
  - exists "a". now left.
  - exists "b", ["x"]. split; [right; now left | discriminate].
Defined.

Section HandBuiltModels.
Context {F : Type} {PF : PyFloat F}.
Variables (vocab : Z) (class_count : Dict.t Z).

Lemma class_loop_first_class (word_counter pre post : Dict.t wc_value)
    (c : string) (v : wc_value) (doc : string) (probabilities : Dict.t F) :
  (forall k, In k (Dict.keys pre) -> k = "total") ->
  for_each (class_score_body word_counter vocab class_count doc)
    (pre ++ (c, v) :: post) probabilities =
  (ps <- class_score_body word_counter vocab class_count doc probabilities (c, v) ;;
   for_each (class_score_body word_counter vocab class_count doc) post ps).
Proof.
  intros Hpre. rewrite for_each_app, class_loop_skip by exact Hpre.
  reflexivity.
Qed.

(** Scoring with a model built by hand: if the first class of
    [word_counter] (the first key other than ['total']) has no entry in
    [class_count], scoring any document raises [KeyError] for that
    class; if it has one but [class_count] has no ['total'], it raises
    [KeyError] for ['total']. *)
Theorem scoring_missing_class_count
    (pre post : Dict.t wc_value) (c : string) (v : wc_value)
    (doc : string) (docs : list string) :
  (forall k, In k (Dict.keys pre) -> k = "total") ->
  c <> "total" ->
  (Dict.get c class_count = None ->
   calculate_probability (F := F) (pre ++ (c, v) :: post) vocab class_count
     (doc :: docs) = Raise (KeyError c)) /\
  (forall n, Dict.get c class_count = Some n ->
   Dict.get "total" class_count = None ->
   calculate_probability (F := F) (pre ++ (c, v) :: post) vocab class_count
     (doc :: docs) = Raise (KeyError "total")).
Proof.
  intros Hpre Hc. apply String.eqb_neq in Hc. split.
  - intros Hn. unfold calculate_probability. apply doc_loop_raise.
    rewrite class_loop_first_class by exact Hpre.
    unfold class_score_body, Dict.getitem. now rewrite Hc, Hn.
  - intros n Hn Ht. unfold calculate_probability. apply doc_loop_raise.
    rewrite class_loop_first_class by exact Hpre.
    unfold class_score_body, Dict.getitem. now rewrite Hc, Hn, Ht.
Qed.
End HandBuiltModels.

Lemma scoring_missing_class_count_witness :
  calculate_probability (F := R) ([("total", VInt 1)] ++ [("a", VDict [])]) 1
    [("total", 1)] ["x"] = Raise (KeyError "a") /\
  calculate_probability (F := R) ([("total", VInt 1)] ++ [("a", VDict [])]) 1
    [("a", 1)] ["x"] = Raise (KeyError "total").
Proof.
  split.
  - apply (proj1 (scoring_missing_class_count (F := R) 1 [("total", 1)]
                    [("total", VInt 1)] [] "a" (VDict []) "x" []
                    ltac:(intros k [<-|[]]; reflexivity) ltac:(discriminate))).
    reflexivity.
  - apply (proj2 (scoring_missing_class_count (F := R) 1 [("a", 1)]
                    [("total", VInt 1)] [] "a" (VDict []) "x" []
                    ltac:(intros k [<-|[]]; reflexivity) ltac:(discriminate)) 1);
      reflexivity.
Defined.

(** ** [naive_bayes_text] and the script *)










(** ** The trained model in closed form *)

(** For a corpus of ASCII documents with at least one class, distinct
    class labels and no class labelled ['total'],
    [parse_training_data] returns: the number
    of distinct lower-cased tokens; the dictionary whose items are the
    first class with its table, then ['total'] with the number of token
    occurrences of the last class, then the other classes with their
    tables, in the order of the corpus; and the dictionary of the
    document counts of the classes in the order of the corpus followed
    by ['total'] with the number of documents. *)
Theorem parse_training_data_closed_form
    (c : string) (docs : list string) (rest : corpus) :
  NoDup (map fst ((c, docs) :: rest)) ->
  ~ In "total" (map fst ((c, docs) :: rest)) ->
  ascii_corpus ((c, docs) :: rest) = true ->
  parse_training_data ((c, docs) :: rest) =
  Ok (Z.of_nat (length (nodup string_dec (corpus_words ((c, docs) :: rest)))),
      (c, VDict (class_table docs)) ::
        ("total", VInt (last_class_tokens ((c, docs) :: rest))) :: wc_items rest,
      doc_counts ((c, docs) :: rest) ++
        [("total", total_docs ((c, docs) :: rest))]).
Proof.
  intros Hnd Hres _.
  destruct (vocab_is_distinct_token_count_aux ((c, docs) :: rest)) as (wc & cc & E).
  rewrite E. rewrite parse_training_data_eq in E. inversion E as [[Ev Ew Ec]].
  clear E. f_equal. f_equal; [f_equal|].
  - destruct (trained_wc_shape c docs rest Hnd Hres) as (t & Et).
    rewrite Et. do 2 f_equal.
    pose proof (trained_total_last ((c, docs) :: rest)) as HT.
    rewrite Et in HT. cbn [Dict.get] in HT.
    assert (Hc : String.eqb "total" c = false).
    { apply String.eqb_neq. intros <-. apply Hres. now left. }
    rewrite Hc, String.eqb_refl in HT.
    specialize (HT ltac:(discriminate)). now inversion HT.
  - unfold trained. rewrite class_total_fold, class_counts_fold by auto.
    change (class_counts init_locals ++ doc_counts ((c, docs) :: rest))
      with (doc_counts ((c, docs) :: rest)).
    change (class_total init_locals + total_docs ((c, docs) :: rest))
      with (total_docs ((c, docs) :: rest)).
    apply DictFacts.set_notin. now rewrite doc_counts_keys.
Qed.

Lemma parse_training_data_closed_form_witness :
  parse_training_data spam_corpus =
  Ok (Z.of_nat (length (nodup string_dec (corpus_words spam_corpus))),
      ("spam", VDict (class_table ["win money now"])) ::
        ("total", VInt (last_class_tokens spam_corpus)) ::
        wc_items [("not spam", ["call me back"])],
      doc_counts spam_corpus ++ [("total", total_docs spam_corpus)]).
Proof.
  apply (parse_training_data_closed_form "spam" ["win money now"]
           [("not spam", ["call me back"])]).
  - repeat constructor; simpl; intuition discriminate.
  - simpl. intuition discriminate.
  - reflexivity.
Defined.
